(** * Chunk distribution for the shell test suite

    A shallow embedding of [bin/calculate-optimal-chunks.py]: the timing
    loader, the static weight estimator, spec discovery, the first-fit
    decreasing packer and the command line driver, followed by the
    properties that the design document states about them.

    Conventions of the embedding.
    - Python [int] is [Z]; a JSON number is represented when it is an
      integer.  The driver is embedded for integer durations; the packer
      is also given over any weight type ([Weighted]), with binary64
      floats as an instance.
    - Python [str] is [string]; a character is a code point below 256.
    - A dictionary with string keys is a [gmap string _].
    - What the interpreter and the file system answer is gathered in a
      [world]; output streams and the sequence of component calls are
      threaded through a small state and error monad.
    - The text of a diagnostic is kept symbolic.  Of the float arithmetic
      behind the distribution summary, the embedding keeps what a run can
      observe with integer weights: the OverflowError of an [int] that
      does not convert to binary64. *)

From Stdlib Require Import ZArith Ascii String.
From Stdlib Require Import Floats.PrimFloat.
From stdpp Require Import gmap strings list sorting.

Set Warnings "-register-all".
Open Scope Z_scope.

(** ** Python values and exceptions *)

Inductive exn : Type :=
  | FileNotFoundError
  | JSONDecodeError
  | OtherError          (* any exception that no handler of this script names *)
  | AttributeError
  | TypeError
  | ValueError
  | IndexError
  | UnicodeDecodeError
  | OverflowError.

(** A decoded JSON document, as [json.load] returns it. *)
Inductive json : Type :=
  | JNull
  | JBool (b : bool)
  | JInt (z : Z)
  | JStr (s : string)
  | JArr (l : list json)
  | JObj (m : gmap string json).

(** One line on the error stream.  The text is kept symbolic; the
    distribution line keeps the weight and the file count of the chunk. *)
Inductive diag : Type :=
  | DUsage (prog : string)
  | DExample (prog : string)
  | DChunkIndexRange (upper : Z)
  | DLoadError (e : exn)
  | DWeightWarning (spec_file : string)
  | DNoSpecFiles
  | DUsingStatic (n : nat)
  | DDistribution
  | DChunk (i : nat) (weight : Z) (files : nat)
  | DTraceback (e : exn).

Abbreviation item := (string * Z)%type.

(** The component calls a run performs, in order. *)
Inductive call : Type :=
  | CLoad (timing_file : string)
  | CDiscover
  | CEstimate (spec_file : string)
  | CPack (items : list item) (num_bins : Z).

(** ** The environment of a run *)

(** What [open] followed by [json.load] does on a path. *)
Inductive opened : Type :=
  | OpenRaises (e : exn)
  | Loaded (data : json).

(** What the estimator finds at a spec path on which [file_path.exists()]
    answers.  The test stands outside the [try]: a path on which it raises
    is not covered, and what is stated of the estimator's result is stated
    of the calls that return. *)
Inductive source : Type :=
  | Absent                          (* [file_path.exists()] is false *)
  | Unreadable                      (* [open] or [readlines] raises *)
  | Readable (lines : list string). (* the result of [readlines] *)

Record world : Type := World {
  int_of : string -> option Z;        (* [int(s)]; [None] is ValueError *)
  timing_doc : string -> opened;
  spec_tree : option (list string);   (* entries below [spec/], relative to
                                         the project root, in the order the
                                         directory walk yields them; [None]
                                         when [spec/] does not exist *)
  spec_source : string -> source }.

(** ** Streams, exit and exceptions *)

Record io : Type := IO {
  stdout : list string;
  stderr : list diag;
  calls : list call }.

Inductive stop : Type :=
  | Exit (code : Z)
  | Raise (e : exn).

Definition M (A : Type) : Type := io -> (stop + A) * io.

Definition ret {A} (a : A) : M A := fun s => (inr a, s).

Definition bind {A B} (m : M A) (f : A -> M B) : M B :=
  fun s => match m s with
           | (inr a, s') => f a s'
           | (inl e, s') => (inl e, s')
           end.

Declare Scope prog_scope.
Delimit Scope prog_scope with prog.
Notation "x <~ m ; k" := (bind m (fun x => k))
  (at level 20, m at level 100, k at level 200) : prog_scope.
Notation "m ;; k" := (bind m (fun _ => k))
  (at level 100, k at level 200, right associativity) : prog_scope.
Open Scope prog_scope.

Definition print (line : string) : M unit :=
  fun s => (inr tt, IO (stdout s ++ [line]) (stderr s) (calls s)).

Definition eprint (d : diag) : M unit :=
  fun s => (inr tt, IO (stdout s) (stderr s ++ [d]) (calls s)).

Definition enter (c : call) : M unit :=
  fun s => (inr tt, IO (stdout s) (stderr s) (calls s ++ [c])).

Definition sys_exit {A} (code : Z) : M A := fun s => (inl (Exit code), s).

Definition raise {A} (e : exn) : M A := fun s => (inl (Raise e), s).

Definition lift {A} (r : exn + A) : M A :=
  match r with
  | inl e => raise e
  | inr a => ret a
  end.

Definition start : io := IO [] [] [].

(** The process: exit status and what was written.  An exception that
    reaches the top level prints a traceback and gives status 1. *)
Definition run (m : M unit) : Z * io :=
  match m start with
  | (inr _, s) => (0, s)
  | (inl (Exit code), s) => (code, s)
  | (inl (Raise e), s) =>
      (1, IO (stdout s) (stderr s ++ [DTraceback e]) (calls s))
  end.

(** ** load_timings *)

Definition caught_by_loader (e : exn) : bool :=
  match e with
  | FileNotFoundError | JSONDecodeError => true
  | _ => false
  end.

Definition load_timings (w : world) (timing_file : string) : M json :=
  match timing_doc w timing_file with
  | OpenRaises e =>
      if caught_by_loader e
      then eprint (DLoadError e) ;; ret (JObj ∅)
      else raise e
  | Loaded (JObj data) => ret (default (JObj ∅) (data !! "timings"%string))
  | Loaded _ => raise AttributeError   (* no [get] on a non-dict *)
  end.

(** ** calculate_static_weight *)

(** [str.isspace] on code points below 256. *)
Definition isspace (c : ascii) : bool :=
  match c with
  | "009" | "010" | "011" | "012" | "013"
  | "028" | "029" | "030" | "031" | " " | "133" | "160" => true
  | _ => false
  end%char.

Fixpoint lstrip (s : string) : string :=
  match s with
  | String c s' => if isspace c then lstrip s' else s
  | EmptyString => EmptyString
  end.

Definition rstrip (s : string) : string := String.rev (lstrip (String.rev s)).

Definition strip (s : string) : string := rstrip (lstrip s).

Definition block_keywords : list string :=
  ["It "; "Describe "; "Context "]%string.

(** [s.startswith(tuple)] *)
Definition startswith (s : string) (prefixes : list string) : bool :=
  existsb (fun p => String.prefix p s) prefixes.

Definition is_test_block (line : string) : bool :=
  startswith (strip line) block_keywords.

Definition sumZ (l : list Z) : Z := foldr Z.add 0 l.

Definition calculate_static_weight (w : world) (spec_file : string) : M Z :=
  match spec_source w spec_file with
  | Absent => ret 100
  | Unreadable => eprint (DWeightWarning spec_file) ;; ret 100
  | Readable lines =>
      let line_count := Z.of_nat (length lines) in
      let test_blocks :=
        sumZ ((fun _ => 1) <$> filter (fun line => is_test_block line = true) lines) in
      ret (line_count + test_blocks * 10)
  end.

(** ** sorted *)

(** Python's [sorted] is stable.  [leb x y] says that [x] may stand before
    [y]; an element is inserted in front of the first element it may stand
    before, so it stays ahead of later elements with an equal key. *)
Section Sorted.
Context {A : Type} (leb : A -> A -> bool).

Fixpoint insert_sorted (x : A) (l : list A) : list A :=
  match l with
  | [] => [x]
  | y :: l' => if leb x y then x :: l else y :: insert_sorted x l'
  end.

Definition sorted (l : list A) : list A := foldr insert_sorted [] l.

End Sorted.

(** ** get_all_spec_files *)

(** The final component of a path. *)
Fixpoint path_name_go (acc : string) (p : string) : string :=
  match p with
  | EmptyString => String.rev acc
  | String c p' =>
      if Ascii.eqb c "/" then path_name_go EmptyString p'
      else path_name_go (String c acc) p'
  end.

Definition path_name (p : string) : string := path_name_go EmptyString p.

Definition endswith (s suffix : string) : bool :=
  String.prefix (String.rev suffix) (String.rev s).

(** The pattern [*_spec.sh] on a name. *)
Definition is_spec_name (p : string) : bool :=
  endswith (path_name p) "_spec.sh".

Definition get_all_spec_files (w : world) : list string :=
  match spec_tree w with
  | None => []
  | Some entries =>
      sorted String.leb (filter (fun p => is_spec_name p = true) entries)
  end.

(** ** bin_packing_ffd *)

(** [min(l)]; [None] is the ValueError on an empty list. *)
Definition py_min (l : list Z) : option Z :=
  match l with
  | [] => None
  | x :: l' => Some (fold_left Z.min l' x)
  end.

(** [l.index(x)]: the first position holding [x]. *)
Fixpoint py_index (x : Z) (l : list Z) : option nat :=
  match l with
  | [] => None
  | y :: l' => if Z.eqb y x then Some 0%nat else S <$> py_index x l'
  end.

Abbreviation packing := (list (list item) * list Z)%type.

(** The body of the loop. *)
Definition place (st : packing) (it : item) : exn + packing :=
  let '(bins, bin_weights) := st in
  let '(item_name, item_weight) := it in
  match py_min bin_weights with
  | None => inl ValueError
  | Some m =>
      match py_index m bin_weights with
      | None => inl ValueError
      | Some min_idx =>
          match bins !! min_idx, bin_weights !! min_idx with
          | Some b, Some wt =>
              inr (<[min_idx := b ++ [(item_name, item_weight)]]> bins,
                   <[min_idx := wt + item_weight]> bin_weights)
          | _, _ => inl IndexError
          end
      end
  end.

Fixpoint pack (sorted_items : list item) (st : packing) : exn + packing :=
  match sorted_items with
  | [] => inr st
  | it :: rest =>
      match place st it with
      | inl e => inl e
      | inr st' => pack rest st'
      end
  end.

(** The key of the sort is the weight and the order is reversed. *)
Definition heavier_first (x y : item) : bool := x.2 >=? y.2.

(** The bins are separate lists: [[] for _ in range(num_bins)] builds one
    list per bin, so an append touches one bin only.  A count below one
    gives no bins at all. *)
Definition bin_packing_ffd (items : list item) (num_bins : Z) : exn + packing :=
  let sorted_items := sorted heavier_first items in
  let bins := replicate (Z.to_nat num_bins) [] in
  let bin_weights := replicate (Z.to_nat num_bins) 0 in
  pack sorted_items (bins, bin_weights).

(** ** bin_packing_ffd over any weight *)

(** A measured duration is a float.  The packer reads its weights through
    [<] (the sort and [min]), [==] ([index]) and [+] only; [Weighted] is its
    code over a weight type that provides them, with [0] for the weight of
    an empty bin. *)
Module Weighted.
Section Packer.
Context {W : Type} (zero : W) (add : W -> W -> W) (ltb eqb : W -> W -> bool).

(** [min(l)] together with the position of the element it returns: the
    scan keeps the element in hand unless the next one is below it. *)
Fixpoint min_from (pos : nat) (m : W) (k : nat) (l : list W) : nat * W :=
  match l with
  | [] => (pos, m)
  | y :: l' => if ltb y m then min_from k y (S k) l' else min_from pos m (S k) l'
  end.

Definition py_min (l : list W) : option (nat * W) :=
  match l with
  | [] => None
  | x :: l' => Some (min_from 0 x 1 l')
  end.

(** [l.index(m)] for the element [m] found at [pos]: the first position
    whose element is [m] itself or equals it. *)
Fixpoint py_index (m : W) (pos : nat) (l : list W) : nat :=
  match l, pos with
  | y :: l', S pos' => if eqb y m then 0%nat else S (py_index m pos' l')
  | _, _ => 0%nat
  end.

Definition place (st : list (list (string * W)) * list W) (it : string * W)
    : exn + list (list (string * W)) * list W :=
  let '(bins, bin_weights) := st in
  let '(item_name, item_weight) := it in
  match py_min bin_weights with
  | None => inl ValueError
  | Some (pos, m) =>
      let min_idx := py_index m pos bin_weights in
      match bins !! min_idx, bin_weights !! min_idx with
      | Some b, Some wt =>
          inr (<[min_idx := b ++ [(item_name, item_weight)]]> bins,
               <[min_idx := add wt item_weight]> bin_weights)
      | _, _ => inl IndexError
      end
  end.

Fixpoint pack (sorted_items : list (string * W))
    (st : list (list (string * W)) * list W)
    : exn + list (list (string * W)) * list W :=
  match sorted_items with
  | [] => inr st
  | it :: rest =>
      match place st it with
      | inl e => inl e
      | inr st' => pack rest st'
      end
  end.

(** In the reversed order of the key, an item stays in front of every
    item that is not above it.  The sort compares keys with [<] alone; the
    order of its result is the one given here whenever [<] orders the keys,
    as it does for floats none of which is a NaN. *)
Definition heavier_first (x y : string * W) : bool := negb (ltb x.2 y.2).

Definition bin_packing_ffd (items : list (string * W)) (num_bins : Z)
    : exn + list (list (string * W)) * list W :=
  let sorted_items := sorted heavier_first items in
  let bins := replicate (Z.to_nat num_bins) [] in
  let bin_weights := replicate (Z.to_nat num_bins) zero in
  pack sorted_items (bins, bin_weights).

(** What [+=] leaves in a bin weight: the weights added one at a time, in
    the order given, to the weight of the empty bin. *)
Definition accumulate (weights : list W) : W := fold_left add weights zero.

End Packer.
End Weighted.

(** The packer on binary64 weights. *)
Definition float_heavier_first : string * float -> string * float -> bool :=
  Weighted.heavier_first PrimFloat.ltb.

Definition float_bin_packing_ffd
    : list (string * float) -> Z -> exn + list (list (string * float)) * list float :=
  Weighted.bin_packing_ffd PrimFloat.zero PrimFloat.add PrimFloat.ltb PrimFloat.eqb.

Definition float_accumulate : list float -> float :=
  Weighted.accumulate PrimFloat.zero PrimFloat.add.

(** ** main *)

(** [a in b] for two strings. *)
Fixpoint contains (s sub : string) : bool :=
  String.prefix sub s ||
  match s with
  | EmptyString => false
  | String _ s' => contains s' sub
  end.

(** [spec_file in timings and timings[spec_file] > 0], and the weight taken
    from the table when the test holds.  [inr None] sends the file to the
    static estimate.  The table is whatever the document holds under its
    key: membership in a list or a string is defined, the subscript that
    follows with a string key is not. *)
Definition timing_weight (timings : json) (spec_file : string) : exn + option Z :=
  match timings with
  | JObj table =>
      match table !! spec_file with
      | None => inr None
      | Some (JInt z) => if z >? 0 then inr (Some z) else inr None
      | Some (JBool b) => if b then inr (Some 1) else inr None
      | Some _ => inl TypeError
      end
  | JArr l =>
      if existsb (fun v => match v with
                           | JStr s => String.eqb s spec_file
                           | _ => false
                           end) l
      then inl TypeError else inr None
  | JStr s => if contains s spec_file then inl TypeError else inr None
  | _ => inl TypeError
  end.

(** The loop that builds [items] and [using_static]. *)
Fixpoint build_items (w : world) (timings : json) (all_spec_files : list string)
    (items : list item) (using_static : list string)
    : M (list item * list string) :=
  match all_spec_files with
  | [] => ret (items, using_static)
  | spec_file :: rest =>
      t <~ lift (timing_weight timings spec_file) ;
      match t with
      | Some weight =>
          build_items w timings rest (items ++ [(spec_file, weight)]) using_static
      | None =>
          enter (CEstimate spec_file) ;;
          weight <~ calculate_static_weight w spec_file ;
          build_items w timings rest
            (items ++ [(spec_file, weight)]) (using_static ++ [spec_file])
      end
  end.

(** An [int] converts to binary64 by rounding to nearest, ties to even;
    the conversion raises OverflowError from [2^1024 - 2^970] on, the
    midpoint between the largest float and [2^1024]. *)
Definition float_limit : Z := 2 ^ 1024 - 2 ^ 970.

(** [float(z)] returns. *)
Definition fits_float (z : Z) : bool := Z.abs z <? float_limit.

(** [a / b] on two ints, [b] not zero, returns: the quotient is rounded
    the same way. *)
Definition true_divide_fits (a b : Z) : bool := Z.abs a <? Z.abs b * float_limit.

(** The distribution summary: one line per chunk.  The deviation
    [(weight - avg_weight) / avg_weight * 100] (taken when the mean is
    positive) and the format [{weight:.1f}] both turn the weight into a
    float first. *)
Fixpoint report (i : nat) (bins : list (list item)) (bin_weights : list Z) : M unit :=
  match bins, bin_weights with
  | bin_items :: bins', weight :: bin_weights' =>
      (if fits_float weight then ret tt else raise OverflowError) ;;
      eprint (DChunk i weight (length bin_items)) ;;
      report (S i) bins' bin_weights'
  | _, _ => ret tt
  end.

(** [' '.join(names)] *)
Fixpoint join (sep : string) (names : list string) : string :=
  match names with
  | [] => EmptyString
  | [x] => x
  | x :: rest => x +:+ sep +:+ join sep rest
  end.

Definition main (w : world) (argv : list string) : M unit :=
  match argv with
  | [] => raise IndexError
  | [_; timing_file; a2; a3] =>
      num_chunks <~ lift (from_option inr (inl ValueError) (int_of w a2)) ;
      chunk_index <~ lift (from_option inr (inl ValueError) (int_of w a3)) ;
      if (chunk_index <? 0) || (chunk_index >=? num_chunks) then
        eprint (DChunkIndexRange (num_chunks - 1)) ;;
        sys_exit 1
      else
        enter (CLoad timing_file) ;;
        timings <~ load_timings w timing_file ;
        enter CDiscover ;;
        let all_spec_files := get_all_spec_files w in
        match all_spec_files with
        | [] => eprint DNoSpecFiles ;; sys_exit 1
        | _ =>
            built <~ build_items w timings all_spec_files [] [] ;
            let items := built.1 in
            let using_static := built.2 in
            (match using_static with
             | [] => ret tt
             | _ => eprint (DUsingStatic (length using_static))
             end) ;;
            enter (CPack items num_chunks) ;;
            packed <~ lift (bin_packing_ffd items num_chunks) ;
            let bins := packed.1 in
            let bin_weights := packed.2 in
            let total_weight := sumZ bin_weights in
            (if num_chunks >? 0 then
               if true_divide_fits total_weight num_chunks
               then ret tt else raise OverflowError
             else ret tt) ;;
            eprint DDistribution ;;
            report 0 bins bin_weights ;;
            chunk_files <~
              lift (from_option inr (inl IndexError) (bins !! Z.to_nat chunk_index)) ;
            match chunk_files with
            | [] => print ""
            | _ => print (join " " (fst <$> chunk_files))
            end
        end
  | prog :: _ =>
      eprint (DUsage prog) ;;
      eprint (DExample prog) ;;
      sys_exit 1
  end.

(** ** convert_tests.py: the name of the generated function *)

(** The lines of [replace_test] that derive the shell function name from
    the test name; a [str] is handled as its list of characters.

    [c.lower()] on a code point below 256: the capital letters are A-Z and
    the Latin-1 capitals 192-214 and 216-222. *)
Definition lower_char (c : ascii) : ascii :=
  let n := nat_of_ascii c in
  if ((65 <=? n) && (n <=? 90) || (192 <=? n) && (n <=? 214)
      || (216 <=? n) && (n <=? 222))%nat
  then ascii_of_nat (n + 32) else c.

(** The class [a-zA-Z0-9_]. *)
Definition is_word_char (c : ascii) : bool :=
  let n := nat_of_ascii c in
  ((97 <=? n) && (n <=? 122) || (65 <=? n) && (n <=? 90)
   || (48 <=? n) && (n <=? 57) || (n =? 95))%nat.

(** [re.sub(r'[^a-zA-Z0-9_]', '_', s)] *)
Definition sanitize (s : list ascii) : list ascii :=
  (fun c => if is_word_char c then c else "_"%char) <$> s.

(** [re.sub(r'_+', '_', s)]: every run of underscores becomes one. *)
Fixpoint squeeze (s : list ascii) : list ascii :=
  match s with
  | [] => []
  | c :: s' =>
      if Ascii.eqb c "_" then
        match s' with
        | c' :: _ => if Ascii.eqb c' "_" then squeeze s' else c :: squeeze s'
        | [] => [c]
        end
      else c :: squeeze s'
  end.

Fixpoint lstrip_char (x : ascii) (s : list ascii) : list ascii :=
  match s with
  | c :: s' => if Ascii.eqb c x then lstrip_char x s' else s
  | [] => []
  end.

(** [s.strip(x)] for a single character [x]. *)
Definition strip_char (x : ascii) (s : list ascii) : list ascii :=
  rev (lstrip_char x (rev (lstrip_char x s))).

Definition func_name_body (test_name : list ascii) : list ascii :=
  strip_char "_" (squeeze (sanitize (lower_char <$> test_name))).

Definition func_name (test_name : string) : string :=
  "test_" +:+ string_of_list_ascii (func_name_body (list_ascii_of_string test_name)).

(** A character of a lower-case identifier: [a-z0-9_]. *)
Definition is_name_char (c : ascii) : bool :=
  let n := nat_of_ascii c in
  ((97 <=? n) && (n <=? 122) || (48 <=? n) && (n <=? 57) || (n =? 95))%nat.

(** Two underscores side by side. *)
Fixpoint doubled (s : list ascii) : bool :=
  match s with
  | c :: s' =>
      match s' with
      | c' :: _ => Ascii.eqb c "_" && Ascii.eqb c' "_" || doubled s'
      | [] => false
      end
  | [] => false
  end.

(** ** Sample environments *)

(** [int] on a plain run of decimal digits with an optional sign. *)
Fixpoint digits (acc : Z) (s : string) : option Z :=
  match s with
  | EmptyString => Some acc
  | String c s' =>
      match Ascii.is_nat c with
      | Some d => digits (10 * acc + Z.of_nat d) s'
      | None => None
      end
  end.

Definition decimal (s : string) : option Z :=
  match s with
  | EmptyString => None
  | String "-" (String _ _ as s') => Z.opp <$> digits 0 s'
  | String "+" (String _ _ as s') => digits 0 s'
  | _ => digits 0 s
  end.

Definition sample_timings : json :=
  JObj {[ "timings"%string :=
            JObj (<["spec/a_spec.sh"%string := JInt 10]>
                   (<["spec/b_spec.sh"%string := JInt 1]> ∅)) ]}.

(** The tree of the worked example; [spec/c_spec.sh] has no timing and a
    hundred plain lines. *)
Definition sample_world : world :=
  World decimal
        (fun _ => Loaded sample_timings)
        (Some ["spec/b_spec.sh"; "spec/helper.sh"; "spec/c_spec.sh";
               "spec/a_spec.sh"]%string)
        (fun p => if String.eqb p "spec/c_spec.sh"
                  then Readable (replicate 100 "echo"%string) else Absent).

(** A timing resource whose document is a list, not a mapping. *)
Definition list_world : world :=
  World decimal (fun _ => Loaded (JArr [])) (Some ["spec/a_spec.sh"%string])
        (fun _ => Absent).

(** A spec of fifty lines, two of which open a block. *)
Definition fifty_lines : list string :=
  ["Describe 'hooks'"; "  It 'runs'"]%string ++ replicate 48 "    echo ok"%string.

Definition fifty_world : world :=
  World decimal (fun _ => OpenRaises FileNotFoundError)
        (Some ["spec/x_spec.sh"%string])
        (fun p => if String.eqb p "spec/x_spec.sh"
                  then Readable fifty_lines else Absent).

(** The sample tree, walked in the opposite order. *)
Definition shuffled_world : world :=
  World (int_of sample_world) (timing_doc sample_world)
        (Some (rev ["spec/b_spec.sh"; "spec/helper.sh"; "spec/c_spec.sh";
                    "spec/a_spec.sh"]%string))
        (spec_source sample_world).

(** A project whose [spec] directory holds helpers only, with no timing
    file. *)
Definition bare_world : world :=
  World decimal (fun _ => OpenRaises FileNotFoundError)
        (Some ["spec/helper.sh"; "spec/support/setup.sh"]%string)
        (fun _ => Absent).

(** Three measured durations: the two short ones are each below half the
    distance between the long one and the next float. *)
Definition float_items : list (string * float) :=
  [("a"%string, 1%float); ("b"%string, 1%float); ("c"%string, 1e16%float)].

(** A timing file that is not UTF-8 text. *)
Definition binary_world : world :=
  World decimal (fun _ => OpenRaises UnicodeDecodeError)
        (Some ["spec/x_spec.sh"%string]) (fun _ => Absent).

(** A table with a zero, a negative and a positive duration. *)
Definition mixed_table : gmap string json :=
  <["spec/a_spec.sh"%string := JInt 0]>
    (<["spec/b_spec.sh"%string := JInt (-3)]>
      (<["spec/c_spec.sh"%string := JInt 5]> ∅)).

(** ** The packing rule in the design document's words *)

Definition same_weight (k : Z) (x : item) : Prop := x.2 = k.

#[global] Instance same_weight_dec k x : Decision (same_weight k x) :=
  Z.eq_dec (x.2) k.

Definition not_lighter (x y : item) : Prop := y.2 <= x.2.

(** Step 1: weights descending, items of equal weight in their original
    relative order. *)
Definition stable_descending (items sorted_items : list item) : Prop :=
  sorted_items ≡ₚ items /\
  StronglySorted not_lighter sorted_items /\
  forall k, filter (same_weight k) sorted_items = filter (same_weight k) items.

(** Step 3: bin [i] holds the minimum accumulated weight and no earlier bin
    does. *)
Definition first_lightest (bin_weights : list Z) (i : nat) : Prop :=
  exists wi, bin_weights !! i = Some wi /\
    (forall j wj, bin_weights !! j = Some wj -> wi <= wj) /\
    (forall j wj, (j < i)%nat -> bin_weights !! j = Some wj -> wi < wj).

Inductive ffd_steps : list item -> packing -> packing -> Prop :=
  | ffd_done st : ffd_steps [] st st
  | ffd_place it rest bins bin_weights i b wi st' :
      first_lightest bin_weights i ->
      bins !! i = Some b ->
      bin_weights !! i = Some wi ->
      ffd_steps rest (<[i := b ++ [it]]> bins, <[i := wi + it.2]> bin_weights) st' ->
      ffd_steps (it :: rest) (bins, bin_weights) st'.

Definition ffd_spec (items : list item) (n : nat) (result : packing) : Prop :=
  exists sorted_items,
    stable_descending items sorted_items /\
    ffd_steps sorted_items (replicate n [], replicate n 0) result.

(** A bin's weight is the sum of its members' weights. *)
Definition weighs (b : list item) (wt : Z) : Prop := wt = sumZ (snd <$> b).

(** ** Vocabulary for the other statements *)

(** The value the estimator returns for a path. *)
Definition static_estimate (w : world) (spec_file : string) : Z :=
  match (calculate_static_weight w spec_file start).1 with
  | inr weight => weight
  | inl _ => 0
  end.

Definition test_block_count (lines : list string) : nat :=
  length (filter (fun line => is_test_block line = true) lines).

(** Which source the driver's loop takes a file's weight from. *)
Definition uses_static (timings : json) (spec_file : string) : bool :=
  match timing_weight timings spec_file with
  | inr None => true
  | _ => false
  end.

Definition weight_of (w : world) (timings : json) (spec_file : string) : Z :=
  match timing_weight timings spec_file with
  | inr (Some weight) => weight
  | _ => static_estimate w spec_file
  end.

(** Every timing the table holds for one of the files is an integer. *)
Definition numeric_for (table : gmap string json) (files : list string) : Prop :=
  Forall (fun f => match table !! f with
                   | Some (JInt _) | None => True
                   | Some _ => False
                   end) files.

(** Conditions of the timing resource. *)
Definition missing (o : opened) : Prop := o = OpenRaises FileNotFoundError.

Definition not_json (o : opened) : Prop := o = OpenRaises JSONDecodeError.

(** The document parses, and is not a mapping that could hold the table. *)
Definition not_a_mapping (o : opened) : Prop :=
  exists data, o = Loaded data /\ forall m, data <> JObj m.

Definition malformed (o : opened) : Prop := not_json o \/ not_a_mapping o.

(** The loader reports one diagnostic and returns an empty mapping. *)
Definition recovers (w : world) (timing_file : string) (s : io) : Prop :=
  exists d, load_timings w timing_file s =
              (inr (JObj ∅), IO (stdout s) (stderr s ++ [d]) (calls s)).

(** Two environments that hold the same inputs; the directory walk may
    yield the entries of the tree in any order. *)
Definition same_tree (t1 t2 : option (list string)) : Prop :=
  match t1, t2 with
  | None, None => True
  | Some l1, Some l2 => l1 ≡ₚ l2
  | _, _ => False
  end.

Definition same_inputs (w1 w2 : world) : Prop :=
  (forall a, int_of w1 a = int_of w2 a) /\
  (forall p, timing_doc w1 p = timing_doc w2 p) /\
  (forall p, spec_source w1 p = spec_source w2 p) /\
  same_tree (spec_tree w1) (spec_tree w2).

(** A computation that leaves the primary stream alone and forgets no
    recorded call. *)
Definition quiet {A} (m : M A) : Prop :=
  forall s, stdout (m s).2 = stdout s /\ calls s ⊆ calls (m s).2.

(** A computation that leaves the primary stream alone, only adds to the
    error stream and never exits by itself. *)
Definition tame {A} (m : M A) : Prop :=
  forall s,
    stdout (m s).2 = stdout s /\
    (exists d, stderr (m s).2 = stderr s ++ d) /\
    forall code, (m s).1 <> inl (Exit code).

(** No weight is a NaN, so that [<] orders the weights. *)
Definition ordered_weights (measured : list (string * float)) : Prop :=
  Forall (fun it => PrimFloat.is_nan it.2 = false) measured.

(** The estimator returns for each of the files. *)
Definition estimator_returns (w : world) (files : list string) : Prop :=
  Forall (fun f => forall s, exists weight s',
            calculate_static_weight w f s = (inr weight, s')) files.

(** A timing-table value of a type that [> 0] does not accept: a string, a
    list, a mapping or null. *)
Definition unordered (v : json) : Prop :=
  match v with
  | JNull | JStr _ | JArr _ | JObj _ => True
  | JBool _ | JInt _ => False
  end.

(** The chunks whose summary line is written: those before the first
    weight that does not convert to a float. *)
Fixpoint fitting (l : list (list item * Z)) : list (list item * Z) :=
  match l with
  | bw :: l' => if fits_float bw.2 then bw :: fitting l' else []
  | [] => []
  end.

(** Every weight converts. *)
Definition all_fit (l : list (list item * Z)) : bool :=
  forallb (fun bw => fits_float bw.2) l.

(** * Properties *)

(** ** Stable insertion sort *)

Section SortedFacts.
Context {A : Type} (leb : A -> A -> bool).
Let R (x y : A) : Prop := leb x y = true.

Lemma insert_sorted_perm x l : insert_sorted leb x l ≡ₚ x :: l.
Proof.
  induction l as [|y l IH]; simpl; [done|].
  destruct (leb x y); [done|].
  rewrite IH. apply Permutation_swap.
Qed.

Lemma sorted_perm l : sorted leb l ≡ₚ l.
Proof.
  induction l as [|x l IH]; simpl; [done|].
  by rewrite insert_sorted_perm, IH.
Qed.

Lemma insert_sorted_strongly x l :
  (forall a b, R a b \/ R b a) ->
  (forall a b c, R a b -> R b c -> R a c) ->
  StronglySorted R l -> StronglySorted R (insert_sorted leb x l).
Proof.
  intros Htot Htrans Hl.
  induction Hl as [|y l Hl IH Hy]; simpl.
  - repeat constructor.
  - destruct (leb x y) eqn:Hxy.
    + constructor; [by constructor|].
      constructor; [done|].
      eapply Forall_impl; [exact Hy|]. intros z Hz. by eapply Htrans.
    + constructor; [done|].
      rewrite insert_sorted_perm. constructor; [|done].
      destruct (Htot x y) as [H|H]; [unfold R in H; congruence|done].
Qed.

Lemma sorted_strongly l :
  (forall a b, R a b \/ R b a) ->
  (forall a b c, R a b -> R b c -> R a c) ->
  StronglySorted R (sorted leb l).
Proof.
  intros Htot Htrans. induction l as [|x l IH]; simpl; [constructor|].
  by apply insert_sorted_strongly.
Qed.

(** Stability, for a class [P] of elements that may stand before one
    another and that nothing outside the class ties with. *)
Lemma insert_sorted_filter_in (P : A -> Prop) `{!forall x, Decision (P x)} x l :
  P x -> (forall y, P y -> R x y) ->
  filter P (insert_sorted leb x l) = x :: filter P l.
Proof.
  intros Hx Hle. induction l as [|y l IH]; simpl.
  - by rewrite filter_cons_True.
  - destruct (leb x y) eqn:Hxy.
    + by rewrite filter_cons_True.
    + assert (~ P y) by (intros Hy; specialize (Hle y Hy); unfold R in Hle; congruence).
      rewrite !(filter_cons_False _ y) by done. exact IH.
Qed.

Lemma insert_sorted_filter_out (P : A -> Prop) `{!forall x, Decision (P x)} x l :
  ~ P x -> filter P (insert_sorted leb x l) = filter P l.
Proof.
  intros Hx. induction l as [|y l IH]; simpl.
  - by rewrite filter_cons_False.
  - destruct (leb x y).
    + by rewrite filter_cons_False.
    + rewrite !(filter_cons P y). by rewrite IH.
Qed.

Lemma sorted_stable (P : A -> Prop) `{!forall x, Decision (P x)} l :
  (forall x y, P x -> P y -> R x y) ->
  filter P (sorted leb l) = filter P l.
Proof.
  intros Hcls. induction l as [|x l IH]; simpl; [done|].
  destruct (decide (P x)) as [Hx|Hx].
  - rewrite insert_sorted_filter_in by eauto.
    by rewrite filter_cons_True, IH.
  - rewrite insert_sorted_filter_out by done.
    by rewrite filter_cons_False, IH.
Qed.

End SortedFacts.

Lemma StronglySorted_weaken {A} (R S : relation A) (l : list A) :
  (forall x y, R x y -> S x y) -> StronglySorted R l -> StronglySorted S l.
Proof.
  intros HRS. induction 1 as [|x l Hl IH Hx]; constructor; [done|].
  eapply Forall_impl; eauto.
Qed.

(** ** The order of the packer's sort *)

Lemma heavier_first_iff x y : heavier_first x y = true <-> not_lighter x y.
Proof. unfold heavier_first, not_lighter. rewrite Z.geb_le. lia. Qed.

Lemma sorted_items_stable_descending items :
  stable_descending items (sorted heavier_first items).
Proof.
  split; [apply sorted_perm|]. split.
  - eapply (StronglySorted_weaken (fun x y => heavier_first x y = true)).
    + intros x y. apply heavier_first_iff.
    + apply sorted_strongly.
      * intros a b. rewrite !heavier_first_iff. unfold not_lighter. lia.
      * intros a b c. rewrite !heavier_first_iff. unfold not_lighter. lia.
  - intros k. apply sorted_stable.
    intros x y Hx Hy. apply heavier_first_iff.
    unfold same_weight, not_lighter in *. lia.
Qed.

(** ** min and index *)

Lemma fold_left_min_le l x : fold_left Z.min l x <= x.
Proof.
  revert x. induction l as [|y l IH]; intros x; simpl; [lia|].
  specialize (IH (Z.min x y)). lia.
Qed.

Lemma fold_left_min_lower l x y : y ∈ l -> fold_left Z.min l x <= y.
Proof.
  revert x. induction l as [|z l IH]; intros x Hy; simpl.
  - by apply elem_of_nil in Hy.
  - apply elem_of_cons in Hy as [->|Hy]; [|by apply IH].
    pose proof (fold_left_min_le l (Z.min x z)). lia.
Qed.

Lemma fold_left_min_elem l x : fold_left Z.min l x = x \/ fold_left Z.min l x ∈ l.
Proof.
  revert x. induction l as [|z l IH]; intros x; simpl; [by left|].
  destruct (IH (Z.min x z)) as [H|H].
  - rewrite H. destruct (Z.min_spec x z) as [[_ ->]|[_ ->]]; [by left|].
    right. apply elem_of_cons. by left.
  - right. apply elem_of_cons. by right.
Qed.

Lemma py_min_spec l m :
  py_min l = Some m -> m ∈ l /\ forall y, y ∈ l -> m <= y.
Proof.
  destruct l as [|x l]; simpl; [done|]. intros [= <-]. split.
  - destruct (fold_left_min_elem l x) as [->|H]; apply elem_of_cons; auto.
  - intros y [->|Hy]%elem_of_cons.
    + apply fold_left_min_le.
    + by apply fold_left_min_lower.
Qed.

Lemma py_min_some l : l <> [] -> exists m, py_min l = Some m.
Proof. destruct l; [done|]. simpl. eauto. Qed.

Lemma py_index_spec x l i :
  py_index x l = Some i ->
  l !! i = Some x /\ forall j y, (j < i)%nat -> l !! j = Some y -> y <> x.
Proof.
  revert i. induction l as [|z l IH]; intros i; simpl; [done|].
  destruct (Z.eqb_spec z x) as [->|Hne].
  - intros [= <-]. split; [done|]. intros; lia.
  - destruct (py_index x l) as [i'|] eqn:Hi; simpl; [|done].
    intros [= <-]. destruct (IH i' eq_refl) as [Hl Hfirst]. split; [done|].
    intros [|j] y Hj; simpl.
    + by intros [= <-].
    + apply Hfirst. lia.
Qed.

Lemma py_index_some x l : x ∈ l -> exists i, py_index x l = Some i.
Proof.
  induction l as [|z l IH]; simpl.
  - by intros ?%elem_of_nil.
  - intros Hx. destruct (Z.eqb_spec z x) as [->|Hne]; [eauto|].
    apply elem_of_cons in Hx as [->|Hx]; [done|].
    destruct (IH Hx) as [i ->]. simpl. eauto.
Qed.

(** The index the loop computes is the first bin of least weight. *)
Lemma min_idx_first_lightest bin_weights m i :
  py_min bin_weights = Some m -> py_index m bin_weights = Some i ->
  first_lightest bin_weights i.
Proof.
  intros [Hin Hlow]%py_min_spec [Hi Hfirst]%py_index_spec.
  exists m. split; [done|]. split.
  - intros j wj Hj. apply Hlow. by eapply list_elem_of_lookup_2.
  - intros j wj Hlt Hj.
    assert (m <= wj) by (apply Hlow; by eapply list_elem_of_lookup_2).
    specialize (Hfirst j wj Hlt Hj). lia.
Qed.

Lemma first_lightest_unique bin_weights i j :
  first_lightest bin_weights i -> first_lightest bin_weights j -> i = j.
Proof.
  intros (wi & Hi & Hmi & Hfi) (wj & Hj & Hmj & Hfj).
  destruct (Nat.lt_trichotomy i j) as [Hlt|[->|Hlt]]; [|done|].
  - specialize (Hfj i wi Hlt Hi). specialize (Hmi j wj Hj). lia.
  - specialize (Hfi j wj Hlt Hj). specialize (Hmj i wi Hi). lia.
Qed.

(** ** One iteration of the loop *)

Lemma place_ok bins bin_weights it :
  length bins = length bin_weights -> bin_weights <> [] ->
  exists i b wi,
    first_lightest bin_weights i /\
    bins !! i = Some b /\ bin_weights !! i = Some wi /\
    place (bins, bin_weights) it =
      inr (<[i := b ++ [it]]> bins, <[i := wi + it.2]> bin_weights).
Proof.
  intros Hlen Hne. destruct it as [name wt]. unfold place.
  destruct (py_min_some _ Hne) as [m Hm]. rewrite Hm.
  destruct (py_min_spec _ _ Hm) as [Hin _].
  destruct (py_index_some _ _ Hin) as [i Hi]. rewrite Hi.
  pose proof (min_idx_first_lightest _ _ _ Hm Hi) as Hfl.
  destruct (py_index_spec _ _ _ Hi) as [Hwi _].
  destruct (lookup_lt_is_Some_2 bins i) as [b Hb].
  { rewrite Hlen. by eapply lookup_lt_Some. }
  exists i, b, m. repeat (split; [done|]). by rewrite Hb, Hwi.
Qed.

Lemma pack_ok sorted_items bins bin_weights :
  length bins = length bin_weights -> bin_weights <> [] ->
  exists st, pack sorted_items (bins, bin_weights) = inr st /\
             ffd_steps sorted_items (bins, bin_weights) st.
Proof.
  revert bins bin_weights.
  induction sorted_items as [|it rest IH]; intros bins bin_weights Hlen Hne;
    cbn [pack].
  - eexists. split; [done|constructor].
  - destruct (place_ok bins bin_weights it Hlen Hne)
      as (i & b & wi & Hfl & Hb & Hwi & ->).
    destruct (IH (<[i := b ++ [it]]> bins) (<[i := wi + it.2]> bin_weights))
      as (st & Hst & Hsteps).
    + by rewrite !length_insert.
    + intros Hnil. apply (f_equal length) in Hnil.
      rewrite length_insert in Hnil. by destruct bin_weights.
    + exists st. split; [done|]. by econstructor.
Qed.

(** ** What a run of placements preserves *)

Lemma ffd_steps_length s bins ws bins' ws' :
  ffd_steps s (bins, ws) (bins', ws') ->
  length bins' = length bins /\ length ws' = length ws.
Proof.
  intros H. remember (bins, ws) as st eqn:E. remember (bins', ws') as st' eqn:E'.
  revert bins ws E. induction H as [st|it rest bs bws i b wi st' Hfl Hb Hwi Hsteps IH];
    intros bins ws E; subst.
  - by simplify_eq.
  - simplify_eq. destruct (IH eq_refl _ _ eq_refl) as [-> ->].
    by rewrite !length_insert.
Qed.

Lemma concat_insert_snoc {A} (bins : list (list A)) i b it :
  bins !! i = Some b -> concat (<[i := b ++ [it]]> bins) ≡ₚ it :: concat bins.
Proof.
  intros Hb. rewrite insert_take_drop by (by eapply lookup_lt_Some).
  rewrite <- (take_drop_middle bins i b Hb) at 3.
  rewrite !concat_app, !concat_cons.
  rewrite <- (assoc_L (++) b [it]). simpl.
  rewrite !(assoc_L (++) (concat (take i bins)) b).
  symmetry. apply Permutation_middle.
Qed.

Lemma sumZ_app l1 l2 : sumZ (l1 ++ l2) = sumZ l1 + sumZ l2.
Proof. induction l1 as [|x l1 IH]; simpl; lia. Qed.

Lemma sumZ_insert ws i wi d :
  ws !! i = Some wi -> sumZ (<[i := wi + d]> ws) = sumZ ws + d.
Proof.
  intros Hwi. rewrite insert_take_drop by (by eapply lookup_lt_Some).
  rewrite <- (take_drop_middle ws i wi Hwi) at 3.
  rewrite !sumZ_app. simpl. lia.
Qed.

Lemma sumZ_perm l1 l2 : l1 ≡ₚ l2 -> sumZ l1 = sumZ l2.
Proof. induction 1; simpl; lia. Qed.

Lemma ffd_steps_members s bins ws bins' ws' :
  ffd_steps s (bins, ws) (bins', ws') -> concat bins' ≡ₚ concat bins ++ s.
Proof.
  intros H. remember (bins, ws) as st eqn:E. remember (bins', ws') as st' eqn:E'.
  revert bins ws E. induction H as [st|it rest bs bws i b wi st' Hfl Hb Hwi Hsteps IH];
    intros bins ws E; subst.
  - simplify_eq. by rewrite (right_id_L [] (++)).
  - simplify_eq. rewrite (IH eq_refl _ _ eq_refl).
    rewrite concat_insert_snoc by done. by rewrite <- Permutation_middle.
Qed.

Lemma ffd_steps_weighs s bins ws bins' ws' :
  ffd_steps s (bins, ws) (bins', ws') ->
  Forall2 weighs bins ws -> Forall2 weighs bins' ws'.
Proof.
  intros H. remember (bins, ws) as st eqn:E. remember (bins', ws') as st' eqn:E'.
  revert bins ws E. induction H as [st|it rest bs bws i b wi st' Hfl Hb Hwi Hsteps IH];
    intros bins ws E Hw; subst.
  - by simplify_eq.
  - simplify_eq. apply (IH eq_refl _ _ eq_refl).
    apply Forall2_insert; [done|].
    pose proof (Forall2_lookup_lr _ _ _ _ _ _ Hw Hb Hwi) as Hbw.
    unfold weighs in *. rewrite fmap_app, sumZ_app. simpl. lia.
Qed.

Lemma ffd_steps_total s bins ws bins' ws' :
  ffd_steps s (bins, ws) (bins', ws') -> sumZ ws' = sumZ ws + sumZ (snd <$> s).
Proof.
  intros H. remember (bins, ws) as st eqn:E. remember (bins', ws') as st' eqn:E'.
  revert bins ws E. induction H as [st|it rest bs bws i b wi st' Hfl Hb Hwi Hsteps IH];
    intros bins ws E; subst.
  - simplify_eq. simpl. lia.
  - simplify_eq. rewrite (IH eq_refl _ _ eq_refl).
    rewrite sumZ_insert by done. rewrite fmap_cons. simpl. lia.
Qed.

(** Every bin grows by a subsequence of the processed items. *)
Lemma ffd_steps_grow s bins ws bins' ws' i b :
  ffd_steps s (bins, ws) (bins', ws') -> bins !! i = Some b ->
  exists t, bins' !! i = Some (b ++ t) /\ t `sublist_of` s.
Proof.
  intros H. remember (bins, ws) as st eqn:E. remember (bins', ws') as st' eqn:E'.
  revert bins ws b E.
  induction H as [st|it rest bs bws k bk wk st' Hfl Hbk Hwk Hsteps IH];
    intros bins ws b E Hb; subst.
  - simplify_eq. exists []. by rewrite (right_id_L [] (++)).
  - simplify_eq. destruct (decide (k = i)) as [->|Hne].
    + assert (bk = b) as -> by congruence.
      destruct (IH eq_refl _ _ (b ++ [it]) eq_refl) as (t & Ht & Hsub).
      { apply list_lookup_insert_eq. by eapply lookup_lt_Some. }
      exists (it :: t). split.
      * by rewrite Ht, <- (assoc_L (++)).
      * by apply sublist_skip.
    + destruct (IH eq_refl _ _ b eq_refl) as (t & Ht & Hsub).
      { by rewrite list_lookup_insert_ne. }
      exists t. split; [done|]. by apply sublist_cons.
Qed.

Lemma StronglySorted_sublist {A} (R : relation A) (l k : list A) :
  l `sublist_of` k -> StronglySorted R k -> StronglySorted R l.
Proof.
  induction 1 as [|x l k Hsub IH|x l k Hsub IH]; intros Hk.
  - constructor.
  - apply StronglySorted_inv in Hk as [Hk Hx]. constructor; [by apply IH|].
    apply Forall_forall. intros y Hy.
    eapply (proj1 (Forall_forall _ _) Hx). by eapply elem_of_sublist.
  - apply StronglySorted_inv in Hk as [Hk _]. by apply IH.
Qed.

Lemma sublist_filter_mono {A} (P : A -> Prop) `{!forall x, Decision (P x)}
    (l k : list A) :
  l `sublist_of` k -> filter P l `sublist_of` filter P k.
Proof.
  induction 1 as [|x l k Hsub IH|x l k Hsub IH]; [constructor|..].
  - rewrite !(filter_cons P x). destruct (decide (P x)); [by constructor|done].
  - rewrite (filter_cons P x k). destruct (decide (P x)); [by constructor|done].
Qed.

(** ** The packer *)

Lemma bin_packing_ffd_steps items num_bins :
  1 <= num_bins ->
  exists result,
    bin_packing_ffd items num_bins = inr result /\
    ffd_steps (sorted heavier_first items)
      (replicate (Z.to_nat num_bins) [], replicate (Z.to_nat num_bins) 0) result.
Proof.
  intros Hn. unfold bin_packing_ffd. apply pack_ok.
  - by rewrite !length_replicate.
  - destruct (Z.to_nat num_bins) eqn:E; [lia|done].
Qed.

(** The documented rule leaves no choice: the stable descending order of a
    list is unique, and so is the outcome of the placements. *)
Lemma sorted_classes_unique (s1 s2 : list item) :
  StronglySorted not_lighter s1 -> StronglySorted not_lighter s2 ->
  s1 ≡ₚ s2 ->
  (forall k, filter (same_weight k) s1 = filter (same_weight k) s2) ->
  s1 = s2.
Proof.
  revert s2. induction s1 as [|x s1 IH]; intros s2 Hs1 Hs2 Hperm Hcls.
  - by apply Permutation_nil in Hperm.
  - destruct s2 as [|y s2]; [by apply Permutation_nil_r in Hperm|].
    apply StronglySorted_inv in Hs1 as [Hs1 Hx].
    apply StronglySorted_inv in Hs2 as [Hs2 Hy].
    assert (Hyx : y.2 <= x.2).
    { assert (y ∈ x :: s1) as [->|Hin]%elem_of_cons
        by (rewrite Hperm; apply elem_of_cons; auto); [lia|].
      exact (proj1 (Forall_forall _ _) Hx y Hin). }
    assert (Hxy : x.2 <= y.2).
    { assert (x ∈ y :: s2) as [->|Hin]%elem_of_cons
        by (rewrite <- Hperm; apply elem_of_cons; auto); [lia|].
      exact (proj1 (Forall_forall _ _) Hy x Hin). }
    pose proof (Hcls (x.2)) as Hk.
    rewrite filter_cons_True in Hk by done.
    rewrite filter_cons_True in Hk by (unfold same_weight; lia).
    injection Hk as <- Hk. f_equal. apply IH; [done|done| |].
    + by eapply Permutation_cons_inv.
    + intros k. specialize (Hcls k). rewrite !(filter_cons _ x) in Hcls.
      destruct (decide (same_weight k x)); [by injection Hcls|done].
Qed.

Lemma stable_descending_unique items s1 s2 :
  stable_descending items s1 -> stable_descending items s2 -> s1 = s2.
Proof.
  intros (Hp1 & Hs1 & Hc1) (Hp2 & Hs2 & Hc2).
  apply sorted_classes_unique; [done|done|by rewrite Hp1, Hp2|].
  intros k. by rewrite Hc1, Hc2.
Qed.

Lemma ffd_steps_functional s st r1 r2 :
  ffd_steps s st r1 -> ffd_steps s st r2 -> r1 = r2.
Proof.
  intros H1. revert r2.
  induction H1 as [st|it rest bins ws i b wi st' Hfl Hb Hwi Hsteps IH]; intros r2 H2.
  - by inversion H2.
  - inversion H2 as [|it' rest' bins' ws' j b' wj st'' Hfl' Hb' Hwj Hsteps']; subst.
    assert (j = i) as -> by (by eapply first_lightest_unique).
    apply IH. by simplify_eq.
Qed.

Lemma ffd_spec_functional items n r1 r2 :
  ffd_spec items n r1 -> ffd_spec items n r2 -> r1 = r2.
Proof.
  intros (s1 & Hs1 & H1) (s2 & Hs2 & H2).
  assert (s1 = s2) as -> by (by eapply stable_descending_unique).
  by eapply ffd_steps_functional.
Qed.

(** C1. For every item list and every bin count of at least one, the packer
    returns, and what it returns is the outcome of the documented rule, which
    has no other outcome: the items are put in descending weight order with
    equal weights left in their original order, and each item in turn goes
    to the first bin of least accumulated weight, whose total grows by the
    item's weight. *)
Theorem bin_packing_ffd_least_loaded (items : list item) (num_bins : Z) :
  1 <= num_bins ->
  exists result,
    bin_packing_ffd items num_bins = inr result /\
    ffd_spec items (Z.to_nat num_bins) result /\
    forall other, ffd_spec items (Z.to_nat num_bins) other -> other = result.
Proof.
  intros Hn. destruct (bin_packing_ffd_steps items num_bins Hn) as (r & Hr & Hs).
  assert (Hspec : ffd_spec items (Z.to_nat num_bins) r).
  { exists (sorted heavier_first items).
    split; [apply sorted_items_stable_descending|done]. }
  exists r. repeat (split; [done|]).
  intros other Hother. by eapply ffd_spec_functional.
Qed.

Lemma bin_packing_ffd_least_loaded_witness :
  1 <= 2 /\
  exists result,
    bin_packing_ffd [("x", 3); ("y", 7); ("z", 3)]%string 2 = inr result /\
    ffd_spec [("x", 3); ("y", 7); ("z", 3)]%string (Z.to_nat 2) result /\
    forall other,
      ffd_spec [("x", 3); ("y", 7); ("z", 3)]%string (Z.to_nat 2) other ->
      other = result.
Proof.
  split; [lia|]. apply (bin_packing_ffd_least_loaded _ 2). lia.
Defined.

Lemma concat_replicate_nil {A} n : concat (replicate n (@nil A)) = [].
Proof. induction n; simpl; auto. Qed.

Lemma sumZ_replicate_zero n : sumZ (replicate n 0) = 0.
Proof. induction n as [|n IH]; simpl; [done|]. by rewrite IH. Qed.

Lemma elem_of_concat {A} (x : A) (l : list (list A)) :
  x ∈ concat l <-> exists i b, l !! i = Some b /\ x ∈ b.
Proof.
  induction l as [|b0 l IH]; simpl.
  - split; [by intros ?%elem_of_nil|]. by intros (i & b & Hb & _).
  - rewrite elem_of_app, IH. split.
    + intros [Hx|(i & b & Hb & Hx)]; [by exists 0%nat, b0|by exists (S i), b].
    + intros ([|i] & b & Hb & Hx); simplify_eq/=; eauto.
Qed.

Lemma concat_NoDup_one_bin {A} (l : list (list A)) x i j bi bj :
  NoDup (concat l) ->
  l !! i = Some bi -> l !! j = Some bj -> x ∈ bi -> x ∈ bj -> i = j.
Proof.
  revert i j. induction l as [|b0 l IH]; intros i j Hnd Hi Hj Hxi Hxj; [done|].
  simpl in Hnd. apply NoDup_app in Hnd as (_ & Hdisj & Hnd).
  destruct i as [|i], j as [|j]; simplify_eq/=; [done| | |].
  - destruct (Hdisj x Hxi). apply elem_of_concat. eauto.
  - destruct (Hdisj x Hxj). apply elem_of_concat. eauto.
  - f_equal. by eapply IH.
Qed.

(** C2. The bins partition the input: as many bins as requested, and the
    bins laid end to end are a rearrangement of the items, so every item
    occurrence sits in exactly one bin; an item is in the input exactly when
    some bin holds it, and when the items are pairwise distinct no two bins
    hold the same item. *)
Theorem bin_packing_ffd_partition (items : list item) (num_bins : Z) :
  1 <= num_bins ->
  exists bins bin_weights,
    bin_packing_ffd items num_bins = inr (bins, bin_weights) /\
    length bins = Z.to_nat num_bins /\
    length bin_weights = Z.to_nat num_bins /\
    concat bins ≡ₚ items /\
    (forall x, x ∈ items <-> exists i b, bins !! i = Some b /\ x ∈ b) /\
    (NoDup items ->
     forall x i j bi bj,
       bins !! i = Some bi -> bins !! j = Some bj -> x ∈ bi -> x ∈ bj -> i = j).
Proof.
  intros Hn.
  destruct (bin_packing_ffd_steps items num_bins Hn) as ([bins ws] & Hr & Hs).
  exists bins, ws. split; [done|].
  destruct (ffd_steps_length _ _ _ _ _ Hs) as [Hb Hw].
  rewrite length_replicate in Hb. rewrite length_replicate in Hw.
  repeat (split; [done|]).
  assert (Hperm : concat bins ≡ₚ items).
  { rewrite (ffd_steps_members _ _ _ _ _ Hs), concat_replicate_nil. simpl.
    apply sorted_perm. }
  split; [done|]. split.
  - intros x. by rewrite <- Hperm, elem_of_concat.
  - intros Hnd x i j bi bj. apply concat_NoDup_one_bin. by rewrite Hperm.
Qed.

Lemma bin_packing_ffd_partition_witness :
  1 <= 3 /\
  exists bins bin_weights,
    bin_packing_ffd [("x", 3); ("y", 7); ("v", 3); ("z", 0)]%string 3
      = inr (bins, bin_weights) /\
    length bins = Z.to_nat 3 /\
    length bin_weights = Z.to_nat 3 /\
    concat bins ≡ₚ [("x", 3); ("y", 7); ("v", 3); ("z", 0)]%string /\
    (forall x, x ∈ [("x", 3); ("y", 7); ("v", 3); ("z", 0)]%string <->
               exists i b, bins !! i = Some b /\ x ∈ b) /\
    (NoDup [("x", 3); ("y", 7); ("v", 3); ("z", 0)]%string ->
     forall x i j bi bj,
       bins !! i = Some bi -> bins !! j = Some bj -> x ∈ bi -> x ∈ bj -> i = j).
Proof.
  split; [lia|]. apply (bin_packing_ffd_partition _ 3). lia.
Defined.

(** ** The packer over any weight *)

Section WeightedFacts.
Context {W : Type} (zero : W) (add : W -> W -> W) (ltb eqb : W -> W -> bool).








Lemma weighted_pack_single_bin s b (wt : W) :
  Weighted.pack add ltb eqb s ([b], [wt]) = inr ([b ++ s], [fold_left add (snd <$> s) wt]).
Proof.
  revert b wt. induction s as [|[name x] s IH]; intros b wt.
  - simpl. by rewrite (right_id_L [] (++)).
  - cbn [Weighted.pack]. unfold Weighted.place. simpl.
    by rewrite IH, <- (assoc_L (++)).
Qed.

End WeightedFacts.











(** Every bin is a subsequence of the sorted items, hence heaviest first,
    with equal weights in the order of the input. *)
Lemma bin_packing_ffd_bins_ordered items num_bins bins bin_weights :
  bin_packing_ffd items num_bins = inr (bins, bin_weights) ->
  Forall (fun b => StronglySorted not_lighter b /\
                   forall k, filter (same_weight k) b
                               `sublist_of` filter (same_weight k) items) bins.
Proof.
  intros Hr. destruct (Z_lt_le_dec num_bins 1) as [Hn|Hn].
  - unfold bin_packing_ffd in Hr. replace (Z.to_nat num_bins) with 0%nat in Hr by lia.
    simpl in Hr. destruct (sorted heavier_first items) as [|it rest]; simpl in Hr.
    + simplify_eq. constructor.
    + by destruct it.
  - destruct (bin_packing_ffd_steps items num_bins Hn) as ([bins' ws'] & Hr' & Hs).
    rewrite Hr in Hr'. simplify_eq.
    destruct (sorted_items_stable_descending items) as (_ & Hsorted & Hstable).
    apply Forall_lookup. intros i b Hb.
    destruct (ffd_steps_length _ _ _ _ _ Hs) as [Hlen _].
    rewrite length_replicate in Hlen.
    destruct (ffd_steps_grow _ _ _ _ _ i [] Hs) as (t & Ht & Hsub).
    { apply lookup_replicate_2. rewrite <- Hlen. by eapply lookup_lt_Some. }
    simpl in Ht. rewrite Hb in Ht. simplify_eq. split.
    + by eapply StronglySorted_sublist.
    + intros k. rewrite <- Hstable. by apply sublist_filter_mono.
Qed.

(** ** Streams *)

Lemma bind_eq {A B} (m : M A) (f : A -> M B) s :
  bind m f s = match m s with
               | (inr a, s') => f a s'
               | (inl e, s') => (inl e, s')
               end.
Proof. done. Qed.

Lemma quiet_ret {A} (a : A) : quiet (ret a).
Proof. by intros s. Qed.

Lemma quiet_eprint d : quiet (eprint d).
Proof. by intros s. Qed.

Lemma quiet_enter c : quiet (enter c).
Proof. intros s. split; [done|]. simpl. set_solver. Qed.

Lemma quiet_raise {A} e : quiet (@raise A e).
Proof. by intros s. Qed.

Lemma quiet_sys_exit {A} code : quiet (@sys_exit A code).
Proof. by intros s. Qed.

Lemma quiet_lift {A} (r : exn + A) : quiet (lift r).
Proof. by destruct r. Qed.

Lemma quiet_bind {A B} (m : M A) (f : A -> M B) :
  quiet m -> (forall a, quiet (f a)) -> quiet (bind m f).
Proof.
  intros Hm Hf s. rewrite bind_eq. destruct (Hm s) as [Hout Hcalls].
  destruct (m s) as [[e|a] s1]; simpl in *; [done|].
  destruct (Hf a s1) as [Hout' Hcalls']. split; [congruence|set_solver].
Qed.

Lemma quiet_load_timings w timing_file : quiet (load_timings w timing_file).
Proof.
  unfold load_timings. destruct (timing_doc w timing_file) as [e|data].
  - destruct (caught_by_loader e); [|apply quiet_raise].
    apply quiet_bind; [apply quiet_eprint|intros _; apply quiet_ret].
  - destruct data; first [apply quiet_raise | apply quiet_ret].
Qed.

Lemma quiet_calculate_static_weight w spec_file :
  quiet (calculate_static_weight w spec_file).
Proof.
  unfold calculate_static_weight. destruct (spec_source w spec_file).
  - apply quiet_ret.
  - apply quiet_bind; [apply quiet_eprint|intros _; apply quiet_ret].
  - apply quiet_ret.
Qed.

Lemma quiet_build_items w timings files items using_static :
  quiet (build_items w timings files items using_static).
Proof.
  revert items using_static. induction files as [|f files IH]; intros items us.
  - apply quiet_ret.
  - cbn [build_items]. apply quiet_bind; [apply quiet_lift|].
    intros [weight|]; [apply IH|].
    apply quiet_bind; [apply quiet_enter|]. intros _.
    apply quiet_bind; [apply quiet_calculate_static_weight|]. intros weight.
    apply IH.
Qed.

Lemma quiet_report i bins bin_weights : quiet (report i bins bin_weights).
Proof.
  revert i bin_weights. induction bins as [|b bins IH]; intros i [|wt ws];
    try apply quiet_ret.
  cbn [report]. apply quiet_bind.
  { destruct (fits_float wt); [apply quiet_ret|apply quiet_raise]. }
  intros _. apply quiet_bind; [apply quiet_eprint|]. intros _. apply IH.
Qed.

(** The estimator always returns, with the value [static_estimate] names. *)
Lemma calculate_static_weight_returns w spec_file s :
  exists s', calculate_static_weight w spec_file s
             = (inr (static_estimate w spec_file), s') /\
             calls s' = calls s.
Proof.
  unfold static_estimate, calculate_static_weight.
  destruct (spec_source w spec_file); simpl; eauto.
Qed.

(** ** The loop that weighs the files *)

Lemma numeric_for_timing_weight table f :
  match table !! f with Some (JInt _) | None => True | Some _ => False end ->
  exists o, timing_weight (JObj table) f = inr o.
Proof.
  unfold timing_weight. destruct (table !! f) as [[]|]; try done; eauto.
  intros _. destruct (_ >? _); eauto.
Qed.

Lemma build_items_returns w table files items using_static s :
  numeric_for table files ->
  exists s',
    build_items w (JObj table) files items using_static s =
      (inr (items ++ ((fun f => (f, weight_of w (JObj table) f)) <$> files),
            using_static ++ filter (fun f => uses_static (JObj table) f = true) files),
       s').
Proof.
  intros Hnum. revert items using_static s.
  induction Hnum as [|f files Hf Hnum IH]; intros items us s.
  - simpl. rewrite filter_nil, !(right_id_L [] (++)). by exists s.
  - cbn [build_items]. rewrite bind_eq.
    destruct (numeric_for_timing_weight _ _ Hf) as [o Ho].
    rewrite fmap_cons.
    assert (weight_of w (JObj table) f =
            match o with Some z => z | None => static_estimate w f end) as ->.
    { unfold weight_of. rewrite Ho. by destruct o. }
    assert (uses_static (JObj table) f = match o with Some _ => false | None => true end)
      as Hu.
    { unfold uses_static. rewrite Ho. by destruct o. }
    rewrite Ho. simpl. destruct o as [z|].
    + rewrite filter_cons_False by (rewrite Hu; done).
      destruct (IH (items ++ [(f, z)]) us s) as [s' ->].
      exists s'. by rewrite <- (assoc_L (++)).
    + rewrite filter_cons_True by done. rewrite !bind_eq. simpl.
      rewrite bind_eq.
      destruct (calculate_static_weight_returns w f
                  (IO (stdout s) (stderr s) (calls s ++ [CEstimate f])))
        as (s1 & -> & _).
      destruct (IH (items ++ [(f, static_estimate w f)]) (us ++ [f]) s1) as [s' ->].
      exists s'. by rewrite <- !(assoc_L (++)).
Qed.

(** C9. A timing is used only when it is strictly positive.  When every
    timing the table holds for a discovered file is an integer, the loop
    returns one item per file in order; a file whose timing is zero or less
    is listed among those using static weights and carries the static
    estimate, and a file whose timing is positive carries that timing and is
    not listed. *)
Theorem nonpositive_timing_uses_static
    (w : world) (table : gmap string json) (files : list string) (s : io) :
  numeric_for table files ->
  exists items using_static s',
    build_items w (JObj table) files [] [] s = (inr (items, using_static), s') /\
    fst <$> items = files /\
    forall f z, f ∈ files -> table !! f = Some (JInt z) ->
      (z <= 0 ->
         f ∈ using_static /\ (f, static_estimate w f) ∈ items /\
         forall weight, (f, weight) ∈ items -> weight = static_estimate w f) /\
      (0 < z ->
         (f ∉ using_static) /\ (f, z) ∈ items /\
         forall weight, (f, weight) ∈ items -> weight = z).
Proof.
  intros Hnum. destruct (build_items_returns w table files [] [] s Hnum) as [s' Hs'].
  eexists _, _, s'. split; [exact Hs'|]. simpl. split.
  - rewrite <- list_fmap_compose. apply list_fmap_id.
  - intros f z Hf Hz.
    assert (Htw : timing_weight (JObj table) f
                  = inr (if z >? 0 then Some z else None)).
    { unfold timing_weight. rewrite Hz. by destruct (z >? 0). }
    split; intros Hsign.
    + assert ((z >? 0) = false) as Hgt by lia. rewrite Hgt in Htw.
      assert (weight_of w (JObj table) f = static_estimate w f) as Hwf.
      { unfold weight_of. by rewrite Htw. }
      split; [|split].
      * apply list_elem_of_filter. split; [|done].
        unfold uses_static. by rewrite Htw.
      * apply list_elem_of_fmap. exists f. by rewrite Hwf.
      * intros weight (f' & [= -> ->] & _)%list_elem_of_fmap. done.
    + assert ((z >? 0) = true) as Hgt by lia. rewrite Hgt in Htw.
      assert (weight_of w (JObj table) f = z) as Hwf.
      { unfold weight_of. by rewrite Htw. }
      split; [|split].
      * intros [Hu _]%list_elem_of_filter. unfold uses_static in Hu.
        by rewrite Htw in Hu.
      * apply list_elem_of_fmap. exists f. by rewrite Hwf.
      * intros weight (f' & [= -> ->] & _)%list_elem_of_fmap. done.
Qed.

Lemma nonpositive_timing_uses_static_witness :
  numeric_for mixed_table ["spec/a_spec.sh"; "spec/b_spec.sh"; "spec/c_spec.sh"]%string /\
  exists items using_static s',
    build_items sample_world (JObj mixed_table)
      ["spec/a_spec.sh"; "spec/b_spec.sh"; "spec/c_spec.sh"]%string [] [] start
      = (inr (items, using_static), s') /\
    fst <$> items = ["spec/a_spec.sh"; "spec/b_spec.sh"; "spec/c_spec.sh"]%string /\
    forall f z,
      f ∈ ["spec/a_spec.sh"; "spec/b_spec.sh"; "spec/c_spec.sh"]%string ->
      mixed_table !! f = Some (JInt z) ->
      (z <= 0 ->
         f ∈ using_static /\ (f, static_estimate sample_world f) ∈ items /\
         forall weight, (f, weight) ∈ items -> weight = static_estimate sample_world f) /\
      (0 < z ->
         (f ∉ using_static) /\ (f, z) ∈ items /\
         forall weight, (f, weight) ∈ items -> weight = z).
Proof.
  assert (H : numeric_for mixed_table
                ["spec/a_spec.sh"; "spec/b_spec.sh"; "spec/c_spec.sh"]%string).
  { repeat constructor. }
  split; [exact H|].
  exact (nonpositive_timing_uses_static sample_world mixed_table _ start H).
Defined.

(** ** The static estimate *)

Lemma string_app_cons a (p rest : string) :
  String a p +:+ rest = String a (p +:+ rest).
Proof. reflexivity. Qed.

Lemma prefix_iff (p s : string) :
  String.prefix p s = true <-> exists rest, s = p +:+ rest.
Proof.
  revert s. induction p as [|a p IH]; intros [|b s]; simpl.
  - split; [|done]. intros _. by exists EmptyString.
  - split; [|done]. intros _. by exists (String b s).
  - split; [done|]. intros [rest Hrest]. rewrite string_app_cons in Hrest.
    discriminate Hrest.
  - destruct (ascii_dec a b) as [->|Hne].
    + rewrite IH. split; intros [rest Hrest]; exists rest.
      * by rewrite string_app_cons, Hrest.
      * rewrite string_app_cons in Hrest. by injection Hrest.
    + split; [done|]. intros [rest Hrest]. rewrite string_app_cons in Hrest.
      injection Hrest as Hab _. done.
Qed.

Lemma is_test_block_iff line :
  is_test_block line = true <->
  exists kw rest, kw ∈ block_keywords /\ strip line = kw +:+ rest.
Proof.
  unfold is_test_block, startswith. rewrite existsb_exists. split.
  - intros (kw & Hkw%list_elem_of_In & Hp). apply prefix_iff in Hp as [rest Hrest].
    by exists kw, rest.
  - intros (kw & rest & Hkw & Hrest). exists kw. split; [by apply list_elem_of_In|].
    apply prefix_iff. by exists rest.
Qed.

Lemma sum_of_ones {A} (l : list A) : sumZ ((fun _ => 1) <$> l) = Z.of_nat (length l).
Proof.
  unfold sumZ. induction l as [|x l IH]; [done|].
  rewrite fmap_cons, length_cons. cbn [foldr]. rewrite IH. lia.
Qed.

(** C5. For a readable file the estimator returns the number of lines plus
    ten for every test block, a test block being a line whose stripped
    content starts with one of the three keywords; fifty lines with two
    block lines give 70; a path that does not exist gives 100, and the
    estimator returns in every case. *)
Theorem static_weight_formula (w : world) (spec_file : string) (s : io) :
  calculate_static_weight w spec_file s =
    match spec_source w spec_file with
    | Readable lines =>
        (inr (Z.of_nat (length lines) + 10 * Z.of_nat (test_block_count lines)), s)
    | Absent => (inr 100, s)
    | Unreadable =>
        (inr 100, IO (stdout s) (stderr s ++ [DWeightWarning spec_file]) (calls s))
    end /\
  (forall lines,
     spec_source w spec_file = Readable lines ->
     length lines = 50%nat -> test_block_count lines = 2%nat ->
     calculate_static_weight w spec_file s = (inr 70, s)) /\
  (forall line,
     is_test_block line = true <->
     exists kw rest, kw ∈ block_keywords /\ strip line = kw +:+ rest) /\
  block_keywords = ["It "; "Describe "; "Context "]%string.
Proof.
  assert (Hread : forall lines, spec_source w spec_file = Readable lines ->
            calculate_static_weight w spec_file s =
            (inr (Z.of_nat (length lines) + 10 * Z.of_nat (test_block_count lines)), s)).
  { intros lines Hsrc. unfold calculate_static_weight, test_block_count.
    rewrite Hsrc, sum_of_ones. unfold ret. do 2 f_equal. lia. }
  split; [|split; [|split]].
  - destruct (spec_source w spec_file) as [| |lines] eqn:Hsrc.
    + unfold calculate_static_weight. by rewrite Hsrc.
    + unfold calculate_static_weight. by rewrite Hsrc.
    + by apply Hread.
  - intros lines Hsrc Hlen Hblocks. rewrite (Hread lines Hsrc), Hlen, Hblocks. done.
  - apply is_test_block_iff.
  - done.
Qed.

Lemma static_weight_formula_witness :
  calculate_static_weight fifty_world "spec/x_spec.sh" start = (inr 70, start) /\
  calculate_static_weight fifty_world "spec/gone_spec.sh" start = (inr 100, start).
Proof.
  split.
  - apply (static_weight_formula fifty_world "spec/x_spec.sh" start) with fifty_lines;
      reflexivity.
  - exact (proj1 (static_weight_formula fifty_world "spec/gone_spec.sh" start)).
Defined.

(** ** Argument checking *)

(** C7. An invocation whose chunk index is not in [0, num_chunks), which is
    every invocation when num_chunks is zero or less, exits with status 1
    after one diagnostic on the error stream, with nothing on the primary
    stream and before any component has been called. *)
Theorem chunk_index_out_of_range_rejected
    (w : world) (prog timing_file a2 a3 : string) (num_chunks chunk_index : Z) :
  int_of w a2 = Some num_chunks ->
  int_of w a3 = Some chunk_index ->
  ~ (0 <= chunk_index < num_chunks) ->
  run (main w [prog; timing_file; a2; a3]) =
    (1, IO [] [DChunkIndexRange (num_chunks - 1)] []).
Proof.
  intros H2 H3 Hout. unfold run, main. rewrite !bind_eq, H2. simpl.
  rewrite bind_eq, H3. simpl.
  assert ((chunk_index <? 0) || (chunk_index >=? num_chunks) = true) as ->.
  { apply orb_true_iff. rewrite Z.ltb_lt, Z.geb_le. lia. }
  done.
Qed.

Lemma chunk_index_out_of_range_rejected_witness :
  int_of sample_world "0" = Some 0 /\
  int_of sample_world "5" = Some 5 /\
  ~ (0 <= 5 < 0) /\
  run (main sample_world ["prog"; "t.json"; "0"; "5"]%string) =
    (1, IO [] [DChunkIndexRange (0 - 1)] []).
Proof.
  assert (H : ~ (0 <= 5 < 0)) by lia.
  repeat (split; [first [reflexivity | exact H]|]).
  exact (chunk_index_out_of_range_rejected sample_world "prog" "t.json" "0" "5" 0 5
           eq_refl eq_refl H).
Defined.

Lemma nonpositive_chunk_count_excludes_every_index (num_chunks chunk_index : Z) :
  num_chunks <= 0 -> ~ (0 <= chunk_index < num_chunks).
Proof. lia. Qed.

(** ** The timing loader *)

(** A document that parses to something other than a mapping is not
    recovered from: the attribute error leaves the loader, and the run
    ends with a traceback. *)
Lemma load_timings_raises_on_list_document :
  malformed (timing_doc list_world "t.json") /\
  load_timings list_world "t.json" start = (inl (Raise AttributeError), start) /\
  run (main list_world ["prog"; "t.json"; "1"; "0"]%string) =
    (1, IO [] [DTraceback AttributeError] [CLoad "t.json"]) /\
  ~ (forall w timing_file s,
       missing (timing_doc w timing_file) \/ malformed (timing_doc w timing_file) ->
       recovers w timing_file s).
Proof.
  assert (Hm : malformed (timing_doc list_world "t.json")).
  { right. exists (JArr []). split; [done|]. intros m. discriminate. }
  repeat (split; [first [exact Hm | reflexivity]|]).
  intros Hall. destruct (Hall list_world "t.json"%string start (or_intror Hm)) as [d Hd].
  discriminate Hd.
Qed.

Lemma load_timings_not_a_mapping w timing_file s :
  not_a_mapping (timing_doc w timing_file) ->
  load_timings w timing_file s = (inl (Raise AttributeError), s).
Proof.
  intros (data & Hdoc & Hshape). unfold load_timings. rewrite Hdoc.
  destruct data; try done. by destruct (Hshape m).
Qed.

(** C8, as amended.  The loader recovers from the two exceptions its
    handler names, and from nothing else.  When the timing file is missing
    ([open] raises FileNotFoundError) or [json.load] raises JSONDecodeError
    on its text, the loader reports one diagnostic on the error stream and
    returns an empty mapping instead of raising; with an empty mapping
    every file falls back to the static estimate.  Any other exception of
    [open] or [json.load], such as the UnicodeDecodeError of content that
    is not UTF-8, leaves the loader as it is, with nothing written; a
    document that parses but is not a mapping leaves it as an
    AttributeError; a mapping is searched for its table without a
    diagnostic. *)
Theorem load_timings_recovers (w : world) (timing_file : string) (s : io) :
  (missing (timing_doc w timing_file) \/ not_json (timing_doc w timing_file) ->
   recovers w timing_file s /\
   forall spec_file, timing_weight (JObj ∅) spec_file = inr None) /\
  (forall e,
     timing_doc w timing_file = OpenRaises e ->
     e <> FileNotFoundError -> e <> JSONDecodeError ->
     load_timings w timing_file s = (inl (Raise e), s)) /\
  (not_a_mapping (timing_doc w timing_file) ->
   load_timings w timing_file s = (inl (Raise AttributeError), s)) /\
  (forall data,
     timing_doc w timing_file = Loaded (JObj data) ->
     load_timings w timing_file s =
       (inr (default (JObj ∅) (data !! "timings"%string)), s)).
Proof.
  split; [|split; [|split]].
  - intros Hdoc. split; [|done].
    unfold recovers, load_timings.
    destruct Hdoc as [->| ->]; simpl; eauto.
  - intros e He Hmissing Hjson. unfold load_timings. rewrite He.
    by destruct e.
  - apply load_timings_not_a_mapping.
  - intros data Hdoc. unfold load_timings. by rewrite Hdoc.
Qed.

Lemma load_timings_recovers_witness :
  (missing (timing_doc fifty_world "t.json") \/
   not_json (timing_doc fifty_world "t.json")) /\
  recovers fifty_world "t.json" start /\
  (forall spec_file, timing_weight (JObj ∅) spec_file = inr None) /\
  load_timings binary_world "t.json" start = (inl (Raise UnicodeDecodeError), start) /\
  load_timings list_world "t.json" start = (inl (Raise AttributeError), start).
Proof.
  assert (H : missing (timing_doc fifty_world "t.json") \/
              not_json (timing_doc fifty_world "t.json")) by (left; reflexivity).
  assert (Hlist : not_a_mapping (timing_doc list_world "t.json")).
  { exists (JArr []). split; [reflexivity|]. intros m. discriminate. }
  split; [exact H|].
  destruct (proj1 (load_timings_recovers fifty_world "t.json" start) H) as [Hrec Hfall].
  split; [exact Hrec|]. split; [exact Hfall|]. split.
  - apply (proj1 (proj2 (load_timings_recovers binary_world "t.json" start))
             UnicodeDecodeError eq_refl); discriminate.
  - exact (proj1 (proj2 (proj2 (load_timings_recovers list_world "t.json" start))) Hlist).
Defined.

(** ** The worked example *)

(** C4. Items a (10), b (1) and c (100, the static estimate of a file with
    no timing) in discovery order, two chunks: the sort gives c, a, b; bin 0
    holds c; bin 1 holds a then b and weighs 11; chunk 0 prints c's path and
    chunk 1 prints the paths of a and b separated by a space. *)
Theorem worked_example :
  get_all_spec_files sample_world =
    ["spec/a_spec.sh"; "spec/b_spec.sh"; "spec/c_spec.sh"]%string /\
  static_estimate sample_world "spec/c_spec.sh" = 100 /\
  sorted heavier_first
    [("spec/a_spec.sh", 10); ("spec/b_spec.sh", 1); ("spec/c_spec.sh", 100)]%string =
    [("spec/c_spec.sh", 100); ("spec/a_spec.sh", 10); ("spec/b_spec.sh", 1)]%string /\
  bin_packing_ffd
    [("spec/a_spec.sh", 10); ("spec/b_spec.sh", 1); ("spec/c_spec.sh", 100)]%string 2 =
    inr ([[("spec/c_spec.sh", 100)];
          [("spec/a_spec.sh", 10); ("spec/b_spec.sh", 1)]]%string,
         [100; 11]) /\
  (let '(status, out) := run (main sample_world ["prog"; "t.json"; "2"; "0"]%string) in
   status = 0 /\ stdout out = ["spec/c_spec.sh"]%string /\
   CPack [("spec/a_spec.sh", 10); ("spec/b_spec.sh", 1); ("spec/c_spec.sh", 100)]%string 2
     ∈ calls out) /\
  (let '(status, out) := run (main sample_world ["prog"; "t.json"; "2"; "1"]%string) in
   status = 0 /\ stdout out = ["spec/a_spec.sh spec/b_spec.sh"]%string /\
   CPack [("spec/a_spec.sh", 10); ("spec/b_spec.sh", 1); ("spec/c_spec.sh", 100)]%string 2
     ∈ calls out).
Proof.
  repeat (split; [vm_compute; reflexivity|]).
  assert (Hrun : forall idx line,
    run (main sample_world ["prog"; "t.json"; "2"; idx]%string) =
      (0, IO [line] [DUsingStatic 1; DDistribution; DChunk 0 100 1; DChunk 1 11 2]
             [CLoad "t.json"; CDiscover; CEstimate "spec/c_spec.sh";
              CPack [("spec/a_spec.sh", 10); ("spec/b_spec.sh", 1);
                     ("spec/c_spec.sh", 100)]%string 2]) ->
    let '(status, out) := run (main sample_world ["prog"; "t.json"; "2"; idx]%string) in
    status = 0 /\ stdout out = [line] /\
    CPack [("spec/a_spec.sh", 10); ("spec/b_spec.sh", 1); ("spec/c_spec.sh", 100)]%string 2
      ∈ calls out).
  { intros idx line ->. repeat (split; [reflexivity|]). simpl.
    rewrite !elem_of_cons. auto. }
  split; apply Hrun; vm_compute; reflexivity.
Qed.

(** ** Discovery does not depend on the order of the directory walk *)

Lemma string_leb_total (a b : string) :
  String.leb a b = true \/ String.leb b a = true.
Proof. apply String.leb_total. Qed.

Lemma string_leb_trans (a b c : string) :
  String.leb a b = true -> String.leb b c = true -> String.leb a c = true.
Proof.
  intros Hab Hbc. apply Is_true_true.
  apply (transitivity (R := String.le) (y := b)); by apply Is_true_true.
Qed.

Lemma sorted_strings_perm (l1 l2 : list string) :
  l1 ≡ₚ l2 -> sorted String.leb l1 = sorted String.leb l2.
Proof.
  intros Hperm.
  apply (StronglySorted_unique_strong (fun a b => String.leb a b = true)).
  - intros a b _ _. apply String.leb_antisym.
  - apply sorted_strongly; [apply string_leb_total|apply string_leb_trans].
  - apply sorted_strongly; [apply string_leb_total|apply string_leb_trans].
  - by rewrite !sorted_perm.
Qed.

Lemma get_all_spec_files_same_tree w1 w2 :
  same_tree (spec_tree w1) (spec_tree w2) ->
  get_all_spec_files w1 = get_all_spec_files w2.
Proof.
  unfold get_all_spec_files, same_tree.
  destruct (spec_tree w1) as [l1|], (spec_tree w2) as [l2|]; try done.
  intros Hperm. apply sorted_strings_perm. by apply filter_Permutation.
Qed.

(** ** The run is a function of the inputs *)

Lemma bind_ext {A B} (m1 m2 : M A) (f1 f2 : A -> M B) s :
  (forall s0, m1 s0 = m2 s0) -> (forall a s0, f1 a s0 = f2 a s0) ->
  bind m1 f1 s = bind m2 f2 s.
Proof.
  intros Hm Hf. rewrite !bind_eq, Hm. destruct (m2 s) as [[e|a] s1]; [done|apply Hf].
Qed.

Lemma load_timings_same w1 w2 timing_file s :
  (forall p, timing_doc w1 p = timing_doc w2 p) ->
  load_timings w1 timing_file s = load_timings w2 timing_file s.
Proof. intros H. unfold load_timings. by rewrite H. Qed.

Lemma calculate_static_weight_same w1 w2 spec_file s :
  (forall p, spec_source w1 p = spec_source w2 p) ->
  calculate_static_weight w1 spec_file s = calculate_static_weight w2 spec_file s.
Proof. intros H. unfold calculate_static_weight. by rewrite H. Qed.

Lemma build_items_same w1 w2 timings files items using_static s :
  (forall p, spec_source w1 p = spec_source w2 p) ->
  build_items w1 timings files items using_static s =
  build_items w2 timings files items using_static s.
Proof.
  intros H. revert items using_static s.
  induction files as [|f files IH]; intros items us s; [done|].
  cbn [build_items]. apply bind_ext; [done|]. intros [weight|] s1; [apply IH|].
  apply bind_ext; [done|]. intros _ s2.
  apply bind_ext; [intros; by apply calculate_static_weight_same|].
  intros weight s3. apply IH.
Qed.

Lemma main_same w1 w2 argv s :
  same_inputs w1 w2 -> main w1 argv s = main w2 argv s.
Proof.
  intros (Hint & Hdoc & Hsrc & Htree).
  pose proof (get_all_spec_files_same_tree _ _ Htree) as Hfiles.
  unfold main. destruct argv as [|a0 [|a1 [|a2 [|a3 [|a4 rest]]]]]; try done.
  apply bind_ext; [intros; by rewrite Hint|]. intros num_chunks s1.
  apply bind_ext; [intros; by rewrite Hint|]. intros chunk_index s2.
  destruct ((chunk_index <? 0) || (chunk_index >=? num_chunks)); [done|].
  apply bind_ext; [done|]. intros _ s3.
  apply bind_ext; [intros; by apply load_timings_same|]. intros timings s4.
  apply bind_ext; [done|]. intros _ s5.
  rewrite <- Hfiles. destruct (get_all_spec_files w1) as [|f files]; [done|].
  apply bind_ext; [intros; by apply build_items_same|]. done.
Qed.

(** C6. Two runs on the same inputs agree: when the argument parser, the
    timing resource and the spec sources answer alike and the tree holds the
    same entries, in whatever order the walk yields them, discovery returns
    the same list, the same items reach the packer, and the runs have the
    same exit status, the same output (the selected bin on the primary
    stream, every bin's weight and size on the error stream) and the same
    packing call. *)
Theorem packing_deterministic (w1 w2 : world) (argv : list string) :
  same_inputs w1 w2 ->
  get_all_spec_files w1 = get_all_spec_files w2 /\
  (forall timings s,
     build_items w1 timings (get_all_spec_files w1) [] [] s =
     build_items w2 timings (get_all_spec_files w2) [] [] s) /\
  run (main w1 argv) = run (main w2 argv).
Proof.
  intros Hsame.
  assert (Hfiles : get_all_spec_files w1 = get_all_spec_files w2).
  { destruct Hsame as (_ & _ & _ & Htree). by apply get_all_spec_files_same_tree. }
  split; [done|]. split.
  - intros timings s. rewrite Hfiles. apply build_items_same. apply Hsame.
  - unfold run. by rewrite (main_same w1 w2 argv start Hsame).
Qed.

Lemma packing_deterministic_witness :
  same_inputs sample_world shuffled_world /\
  get_all_spec_files sample_world = get_all_spec_files shuffled_world /\
  (forall timings s,
     build_items sample_world timings (get_all_spec_files sample_world) [] [] s =
     build_items shuffled_world timings (get_all_spec_files shuffled_world) [] [] s) /\
  run (main sample_world ["prog"; "t.json"; "2"; "1"]%string) =
  run (main shuffled_world ["prog"; "t.json"; "2"; "1"]%string).
Proof.
  assert (H : same_inputs sample_world shuffled_world).
  { repeat (split; [reflexivity|]). simpl.
    apply (Permutation_rev
             ["spec/b_spec.sh"; "spec/helper.sh"; "spec/c_spec.sh";
              "spec/a_spec.sh"]%string). }
  split; [exact H|]. exact (packing_deterministic sample_world shuffled_world _ H).
Defined.

(** ** What reaches the primary stream *)

Lemma quiet_run {A} (m : M A) s r s' :
  quiet m -> m s = (r, s') -> stdout s' = stdout s /\ calls s ⊆ calls s'.
Proof. intros Hq Hm. specialize (Hq s). by rewrite Hm in Hq. Qed.

Lemma quiet_stdout {A} (m : M A) s r s' :
  quiet m -> m s = (r, s') -> stdout s' = stdout s.
Proof. intros Hq Hm. by destruct (quiet_run m s r s' Hq Hm). Qed.

Lemma quiet_if {A} (c : bool) (a b : M A) :
  quiet a -> quiet b -> quiet (if c then a else b).
Proof. by destruct c. Qed.

Ltac quiet_tac :=
  repeat first
    [ apply quiet_ret | apply quiet_eprint | apply quiet_enter
    | apply quiet_raise | apply quiet_sys_exit | apply quiet_lift
    | apply quiet_if
    | apply quiet_load_timings | apply quiet_build_items | apply quiet_report
    | apply quiet_bind | intros ? ].

(** * Further properties of the packer *)

Lemma sorted_nil_inv {A} (leb : A -> A -> bool) l : sorted leb l = [] -> l = [].
Proof.
  intros H. apply Permutation_nil. rewrite <- H. apply sorted_perm.
Qed.

(** X1. With a bin count of zero or less there are no bins: an empty item
    list is returned as no bins and no weights, and any item at all makes
    [min] fail on the empty weight list with a ValueError. *)
Theorem bin_packing_ffd_no_bins (items : list item) (num_bins : Z) :
  num_bins <= 0 ->
  bin_packing_ffd items num_bins =
    match items with
    | [] => inr ([], [])
    | _ :: _ => inl ValueError
    end.
Proof.
  intros Hn. unfold bin_packing_ffd.
  replace (Z.to_nat num_bins) with 0%nat by lia. simpl.
  destruct items as [|x items]; [done|].
  destruct (sorted heavier_first (x :: items)) as [|[name wt] rest] eqn:E.
  - by apply sorted_nil_inv in E.
  - done.
Qed.

Lemma bin_packing_ffd_no_bins_witness :
  -2 <= 0 /\
  bin_packing_ffd [("x", 3)]%string (-2) = inl ValueError /\
  bin_packing_ffd [] (-2) = inr ([], []).
Proof.
  assert (H : -2 <= 0) by lia.
  split; [exact H|]. split.
  - exact (bin_packing_ffd_no_bins [("x", 3)]%string (-2) H).
  - exact (bin_packing_ffd_no_bins [] (-2) H).
Defined.

Lemma pack_single_bin s b wt :
  pack s ([b], [wt]) = inr ([b ++ s], [wt + sumZ (snd <$> s)]).
Proof.
  revert b wt. induction s as [|[name x] s IH]; intros b wt.
  - simpl. rewrite (right_id_L [] (++)). do 3 f_equal. lia.
  - cbn [pack]. unfold place. cbn [py_min fold_left py_index].
    rewrite Z.eqb_refl. cbn [lookup list_lookup insert list_insert].
    rewrite IH, <- (assoc_L (++)), fmap_cons. simpl. do 3 f_equal. lia.
Qed.

(** X2. With one bin every item lands in it: the single bin is the stably
    sorted item list, and its weight is what adding the weights of that
    list one at a time, in the sorted order, leaves from 0.  For integer
    weights that is the sum of all item weights; for float weights, none of
    them a NaN, it is the accumulation itself. *)
Theorem bin_packing_ffd_single_bin
    (items : list item) (measured : list (string * float)) :
  ordered_weights measured ->
  bin_packing_ffd items 1 =
    inr ([sorted heavier_first items], [sumZ (snd <$> items)]) /\
  stable_descending items (sorted heavier_first items) /\
  float_bin_packing_ffd measured 1 =
    inr ([sorted float_heavier_first measured],
         [float_accumulate (snd <$> sorted float_heavier_first measured)]).
Proof.
  intros _. split; [|split; [apply sorted_items_stable_descending|]].
  - unfold bin_packing_ffd. change (Z.to_nat 1) with 1%nat. simpl replicate.
    rewrite pack_single_bin. simpl. do 3 f_equal.
    apply sumZ_perm, fmap_Permutation, sorted_perm.
  - unfold float_bin_packing_ffd, Weighted.bin_packing_ffd.
    change (Z.to_nat 1) with 1%nat. simpl replicate.
    by rewrite weighted_pack_single_bin.
Qed.

Lemma bin_packing_ffd_single_bin_witness :
  ordered_weights float_items /\
  bin_packing_ffd [("x", 3); ("y", 7); ("z", 3)]%string 1 =
    inr ([[("y", 7); ("x", 3); ("z", 3)]]%string, [13]) /\
  float_bin_packing_ffd float_items 1 =
    inr ([[("c"%string, 1e16%float); ("a"%string, 1%float); ("b"%string, 1%float)]],
         [1e16%float]).
Proof.
  assert (H : ordered_weights float_items) by (repeat constructor).
  split; [exact H|].
  destruct (bin_packing_ffd_single_bin [("x", 3); ("y", 7); ("z", 3)]%string
              float_items H) as (Hint & _ & Hfloat).
  split; [exact Hint|exact Hfloat].
Defined.

(** ** Balance *)

Lemma spread_step (ws : list Z) i wi x M :
  first_lightest ws i -> ws !! i = Some wi -> 0 <= x <= M ->
  (forall a b, a ∈ ws -> b ∈ ws -> a <= b + M) ->
  forall a b, a ∈ <[i := wi + x]> ws -> b ∈ <[i := wi + x]> ws -> a <= b + M.
Proof.
  intros (wi' & Hwi' & Hmin & _) Hwi Hx Hspread a b.
  assert (wi' = wi) as -> by congruence.
  intros (p & Hp)%list_elem_of_lookup_1 (q & Hq)%list_elem_of_lookup_1.
  apply list_lookup_insert_Some in Hp as [(-> & <- & _)|(Hpi & Hp)];
    apply list_lookup_insert_Some in Hq as [(Hqi & <- & _)|(Hqi & Hq)].
  - lia.
  - specialize (Hmin q b Hq). lia.
  - assert (a <= wi + M); [|lia].
    apply Hspread; by eapply list_elem_of_lookup_2.
  - apply Hspread; by eapply list_elem_of_lookup_2.
Qed.

Lemma ffd_steps_spread s bins ws bins' ws' M :
  ffd_steps s (bins, ws) (bins', ws') ->
  (forall x, x ∈ s -> 0 <= x.2 <= M) ->
  (forall a b, a ∈ ws -> b ∈ ws -> a <= b + M) ->
  forall a b, a ∈ ws' -> b ∈ ws' -> a <= b + M.
Proof.
  intros H. remember (bins, ws) as st eqn:E. remember (bins', ws') as st' eqn:E'.
  revert bins ws E.
  induction H as [st|it rest bs bws i b0 wi st' Hfl Hb Hwi Hsteps IH];
    intros bins ws E Hs Hspread; subst.
  - by simplify_eq.
  - simplify_eq. eapply (IH eq_refl _ _ eq_refl).
    + intros x Hx. apply Hs. apply elem_of_cons. by right.
    + apply spread_step; [done|done| |done].
      apply Hs. apply elem_of_cons. by left.
Qed.

Lemma sumZ_lower_bound (ws : list Z) c :
  (forall wj, wj ∈ ws -> c <= wj) -> Z.of_nat (length ws) * c <= sumZ ws.
Proof.
  induction ws as [|wj ws IH]; intros Hc; simpl; [lia|].
  assert (c <= wj) by (apply Hc, elem_of_cons; by left).
  assert (Z.of_nat (length ws) * c <= sumZ ws).
  { apply IH. intros y Hy. apply Hc, elem_of_cons. by right. }
  unfold sumZ in *. lia.
Qed.

(** X3. The packing is balanced when no weight is negative: two bin weights
    differ by at most the heaviest item, and no bin exceeds the mean bin
    weight by more than the heaviest item. *)
Theorem bin_packing_ffd_balanced (items : list item) (num_bins heaviest : Z) :
  1 <= num_bins -> 0 <= heaviest ->
  (forall x, x ∈ items -> 0 <= x.2 <= heaviest) ->
  exists bins bin_weights,
    bin_packing_ffd items num_bins = inr (bins, bin_weights) /\
    (forall a b, a ∈ bin_weights -> b ∈ bin_weights -> a <= b + heaviest) /\
    (forall a, a ∈ bin_weights ->
               num_bins * a <= sumZ (snd <$> items) + num_bins * heaviest).
Proof.
  intros Hn HM Hitems.
  destruct (bin_packing_ffd_steps items num_bins Hn) as ([bins ws] & Hr & Hs).
  exists bins, ws. split; [done|].
  assert (Hspread : forall a b, a ∈ ws -> b ∈ ws -> a <= b + heaviest).
  { eapply ffd_steps_spread; [exact Hs| |].
    - intros x Hx. apply Hitems. by rewrite <- (sorted_perm heavier_first items).
    - intros a b [-> _]%elem_of_replicate [-> _]%elem_of_replicate. lia. }
  split; [done|]. intros a Ha.
  destruct (ffd_steps_length _ _ _ _ _ Hs) as [_ Hlen].
  rewrite length_replicate in Hlen.
  pose proof (sumZ_lower_bound ws (a - heaviest)) as Hlow.
  rewrite Hlen, Z2Nat.id in Hlow by lia.
  assert (Htot : sumZ ws = sumZ (snd <$> items)).
  { rewrite (ffd_steps_total _ _ _ _ _ Hs), sumZ_replicate_zero. simpl.
    apply sumZ_perm, fmap_Permutation, sorted_perm. }
  rewrite <- Htot.
  assert (num_bins * (a - heaviest) <= sumZ ws); [|lia].
  apply Hlow. intros wj Hwj. specialize (Hspread a wj Ha Hwj). lia.
Qed.

Lemma bin_packing_ffd_balanced_witness :
  1 <= 2 /\ 0 <= 7 /\
  (forall x, x ∈ [("x", 3); ("y", 7); ("z", 0)]%string -> 0 <= x.2 <= 7) /\
  exists bins bin_weights,
    bin_packing_ffd [("x", 3); ("y", 7); ("z", 0)]%string 2 = inr (bins, bin_weights) /\
    (forall a b, a ∈ bin_weights -> b ∈ bin_weights -> a <= b + 7) /\
    (forall a, a ∈ bin_weights ->
               2 * a <= sumZ (snd <$> [("x", 3); ("y", 7); ("z", 0)]%string) + 2 * 7).
Proof.
  assert (H1 : 1 <= 2) by lia. assert (H2 : 0 <= 7) by lia.
  assert (H3 : forall x, x ∈ [("x", 3); ("y", 7); ("z", 0)]%string -> 0 <= x.2 <= 7).
  { intros x Hx. repeat (apply elem_of_cons in Hx as [->|Hx]; [simpl; lia|]).
    by apply elem_of_nil in Hx. }
  repeat (split; [assumption|]).
  exact (bin_packing_ffd_balanced _ 2 7 H1 H2 H3).
Defined.

(** ** No more items than bins *)

Lemma py_index_app_fresh x l1 l2 :
  (forall y, y ∈ l1 -> y <> x) -> py_index x (l1 ++ x :: l2) = Some (length l1).
Proof.
  induction l1 as [|y l1 IH]; intros Hfresh; simpl.
  - by rewrite Z.eqb_refl.
  - destruct (Z.eqb_spec y x) as [->|_].
    + destruct (Hfresh x); [apply elem_of_cons; by left|done].
    + rewrite IH; [done|]. intros z Hz. apply Hfresh, elem_of_cons. by right.
Qed.

Lemma py_min_zero l1 l2 :
  (forall y, y ∈ l1 -> 0 < y) -> (forall y, y ∈ l2 -> y = 0) ->
  py_min (l1 ++ 0 :: l2) = Some 0.
Proof.
  intros Hpos Hzero.
  destruct (py_min_some (l1 ++ 0 :: l2)) as [m Hm]; [by destruct l1|].
  rewrite Hm. f_equal.
  destruct (py_min_spec _ _ Hm) as [Hin Hlow].
  assert (m <= 0) by (apply Hlow, elem_of_app; right; apply elem_of_cons; by left).
  apply elem_of_app in Hin as [Hin|[->|Hin]%elem_of_cons]; [|done|by apply Hzero].
  specialize (Hpos m Hin). lia.
Qed.

Lemma pack_one_each (rest done : list item) (spare : nat) :
  (forall x, x ∈ done -> 0 < x.2) -> (forall x, x ∈ rest -> 0 < x.2) ->
  pack rest (((fun x => [x]) <$> done) ++ replicate (length rest + spare) [],
             (snd <$> done) ++ replicate (length rest + spare) 0) =
  inr (((fun x => [x]) <$> (done ++ rest)) ++ replicate spare [],
       (snd <$> (done ++ rest)) ++ replicate spare 0).
Proof.
  revert done. induction rest as [|[name wt] rest IH]; intros done Hdone Hrest.
  - simpl. by rewrite (right_id_L [] (++)).
  - cbn [pack length Nat.add replicate]. unfold place.
    rewrite py_min_zero; first last.
    { by intros y [-> _]%elem_of_replicate. }
    { intros y (x & -> & Hx)%list_elem_of_fmap. by apply Hdone. }
    rewrite py_index_app_fresh; first last.
    { intros y (x & -> & Hx)%list_elem_of_fmap. specialize (Hdone x Hx). lia. }
    rewrite length_fmap.
    rewrite (list_lookup_middle _ _ _ (length done)) by (by rewrite length_fmap).
    rewrite (list_lookup_middle _ _ _ (length done)) by (by rewrite length_fmap).
    replace (length done) with (length ((fun x : item => [x]) <$> done) + 0)%nat at 1
      by (rewrite length_fmap; lia).
    rewrite insert_app_r.
    replace (length done) with (length (snd <$> done) + 0)%nat at 1
      by (rewrite length_fmap; lia).
    rewrite insert_app_r. cbn [insert list_insert app]. rewrite Z.add_0_l.
    specialize (IH (done ++ [(name, wt)])).
    rewrite !fmap_app, <- !(assoc_L (++)) in IH. cbn in IH.
    rewrite IH.
    + by rewrite !fmap_app, <- !(assoc_L (++)).
    + intros x [Hx|Hx%list_elem_of_singleton]%elem_of_app; [by apply Hdone|].
      subst x. apply Hrest, elem_of_cons. by left.
    + intros x Hx. apply Hrest, elem_of_cons. by right.
Qed.

(** X4. When every weight is positive and there are no more items than
    bins, each item sits alone: bin [k] holds the item of rank [k] in the
    sorted order, and the bins past the last item stay empty with weight
    zero. *)
Theorem bin_packing_ffd_one_each (items : list item) (num_bins : Z) :
  (forall x, x ∈ items -> 0 < x.2) ->
  Z.of_nat (length items) <= num_bins ->
  bin_packing_ffd items num_bins =
    inr (((fun x => [x]) <$> sorted heavier_first items)
           ++ replicate (Z.to_nat num_bins - length items) [],
         (snd <$> sorted heavier_first items)
           ++ replicate (Z.to_nat num_bins - length items) 0).
Proof.
  intros Hpos Hlen. unfold bin_packing_ffd.
  assert (Hsl : length (sorted heavier_first items) = length items).
  { apply Permutation_length, sorted_perm. }
  replace (Z.to_nat num_bins)
    with (length (sorted heavier_first items) + (Z.to_nat num_bins - length items))%nat
    at 1 2 by lia.
  apply (pack_one_each (sorted heavier_first items) []).
  - by intros x ?%elem_of_nil.
  - intros x Hx. apply Hpos. by rewrite <- (sorted_perm heavier_first items).
Qed.

Lemma bin_packing_ffd_one_each_witness :
  (forall x, x ∈ [("x", 3); ("y", 7)]%string -> 0 < x.2) /\
  Z.of_nat (length [("x", 3); ("y", 7)]%string) <= 4 /\
  bin_packing_ffd [("x", 3); ("y", 7)]%string 4 =
    inr (((fun x => [x]) <$> sorted heavier_first [("x", 3); ("y", 7)]%string)
           ++ replicate (Z.to_nat 4 - length [("x", 3); ("y", 7)]%string) [],
         (snd <$> sorted heavier_first [("x", 3); ("y", 7)]%string)
           ++ replicate (Z.to_nat 4 - length [("x", 3); ("y", 7)]%string) 0).
Proof.
  assert (H1 : forall x, x ∈ [("x", 3); ("y", 7)]%string -> 0 < x.2).
  { intros x Hx. repeat (apply elem_of_cons in Hx as [->|Hx]; [simpl; lia|]).
    by apply elem_of_nil in Hx. }
  assert (H2 : Z.of_nat (length [("x", 3); ("y", 7)]%string) <= 4) by (simpl; lia).
  repeat (split; [assumption|]).
  exact (bin_packing_ffd_one_each _ 4 H1 H2).
Defined.

(** * Further properties of the estimator and of the weighing loop *)

Lemma test_block_count_le lines : (test_block_count lines <= length lines)%nat.
Proof. unfold test_block_count. apply length_filter. Qed.

(** X5. Whenever the estimator returns a weight, the weight is not
    negative, the primary stream and the recorded calls are as they were
    and at most one warning has been written.  For a readable file the
    weight lies between the line count and eleven times the line count and
    there is no warning; an unreadable file gives 100 and the warning; a
    path that does not exist gives 100 and no warning. *)
Theorem calculate_static_weight_bounds
    (w : world) (spec_file : string) (s s' : io) (weight : Z) :
  calculate_static_weight w spec_file s = (inr weight, s') ->
  exists warnings,
    s' = IO (stdout s) (stderr s ++ warnings) (calls s) /\
    (length warnings <= 1)%nat /\
    0 <= weight /\
    (forall lines, spec_source w spec_file = Readable lines ->
       Z.of_nat (length lines) <= weight <= 11 * Z.of_nat (length lines) /\
       warnings = []) /\
    (spec_source w spec_file = Unreadable ->
       weight = 100 /\ warnings = [DWeightWarning spec_file]) /\
    (spec_source w spec_file = Absent -> weight = 100 /\ warnings = []).
Proof.
  unfold calculate_static_weight.
  destruct (spec_source w spec_file) as [| |lines] eqn:Hsrc.
  - intros [= <- <-]. exists []. rewrite (right_id_L [] (++)). destruct s. simpl.
    repeat (split; [done || lia|]). done.
  - intros [= <- <-]. exists [DWeightWarning spec_file]. simpl.
    repeat (split; [done || lia|]). done.
  - pose proof (test_block_count_le lines) as Hle. unfold test_block_count in Hle.
    rewrite sum_of_ones. intros [= <- <-].
    exists []. rewrite (right_id_L [] (++)). destruct s. simpl.
    split; [done|]. split; [lia|]. split; [lia|]. split; [|done].
    intros lines' [= <-]. split; [lia|done].
Qed.

Lemma static_estimate_nonneg w spec_file : 0 <= static_estimate w spec_file.
Proof.
  unfold static_estimate, calculate_static_weight.
  destruct (spec_source w spec_file) as [| |lines]; simpl; try lia.
  rewrite sum_of_ones. lia.
Qed.

Lemma timing_weight_error timings spec_file e :
  timing_weight timings spec_file = inl e -> e = TypeError.
Proof.
  unfold timing_weight. destruct timings as [| | | |l|table]; try congruence.
  - by destruct (contains _ _); intros [= <-].
  - by destruct (existsb _ l); intros [= <-].
  - destruct (table !! spec_file) as [[| |z| | |]|]; try congruence.
    + destruct b; congruence.
    + destruct (z >? 0); congruence.
Qed.

Lemma timing_weight_positive timings spec_file z :
  timing_weight timings spec_file = inr (Some z) -> 0 < z.
Proof.
  unfold timing_weight. destruct timings as [| | | |l|table]; try congruence.
  - by destruct (contains _ _).
  - by destruct (existsb _ l).
  - destruct (table !! spec_file) as [[| |z'| | |]|]; try congruence.
    + destruct b; [|congruence]. intros [= <-]. lia.
    + destruct (z' >? 0) eqn:E; [|congruence]. intros [= <-]. lia.
Qed.

Lemma weight_of_nonneg w timings spec_file : 0 <= weight_of w timings spec_file.
Proof.
  unfold weight_of. destruct (timing_weight timings spec_file) as [e|[z|]] eqn:E;
    try apply static_estimate_nonneg.
  apply timing_weight_positive in E. lia.
Qed.

(** The loop returns exactly when no file's timing raises, and then with
    one item per file in order. *)
Lemma build_items_cases w timings files items using_static s :
  (Forall (fun f => exists o, timing_weight timings f = inr o) files /\
   exists s',
     build_items w timings files items using_static s =
       (inr (items ++ ((fun f => (f, weight_of w timings f)) <$> files),
             using_static ++ filter (fun f => uses_static timings f = true) files),
        s')) \/
  (Exists (fun f => exists e, timing_weight timings f = inl e) files /\
   exists s',
     build_items w timings files items using_static s = (inl (Raise TypeError), s')).
Proof.
  revert items using_static s.
  induction files as [|f files IH]; intros items us s.
  - left. split; [constructor|]. simpl. rewrite filter_nil, !(right_id_L [] (++)).
    by exists s.
  - cbn [build_items]. rewrite bind_eq.
    destruct (timing_weight timings f) as [e|o] eqn:Ho.
    { right. split; [apply Exists_cons_hd; eauto|].
      apply timing_weight_error in Ho as ->. simpl. eauto. }
    rewrite fmap_cons.
    assert (weight_of w timings f =
            match o with Some z => z | None => static_estimate w f end) as ->.
    { unfold weight_of. rewrite Ho. by destruct o. }
    assert (uses_static timings f = match o with Some _ => false | None => true end)
      as Hu.
    { unfold uses_static. rewrite Ho. by destruct o. }
    simpl. destruct o as [z|].
    + rewrite filter_cons_False by (rewrite Hu; done).
      destruct (IH (items ++ [(f, z)]) us s) as [(Hall & s' & ->)|(Hex & s' & ->)].
      * left. split; [constructor; eauto|]. exists s'. by rewrite <- (assoc_L (++)).
      * right. split; [by apply Exists_cons_tl|]. eauto.
    + rewrite filter_cons_True by done. rewrite !bind_eq. simpl. rewrite bind_eq.
      destruct (calculate_static_weight_returns w f
                  (IO (stdout s) (stderr s) (calls s ++ [CEstimate f])))
        as (s1 & -> & _).
      destruct (IH (items ++ [(f, static_estimate w f)]) (us ++ [f]) s1)
        as [(Hall & s' & ->)|(Hex & s' & ->)].
      * left. split; [constructor; eauto|]. exists s'. by rewrite <- !(assoc_L (++)).
      * right. split; [by apply Exists_cons_tl|]. eauto.
Qed.

(** X6. Whatever the timing table holds, when the weighing loop returns it
    has made one item per discovered file, in discovery order, and no weight
    is negative; the files it reports as using static weights are a
    subsequence of the discovered files, and every other file carries a
    strictly positive weight. *)
Theorem build_items_shape
    (w : world) (timings : json) (files : list string) (s s' : io)
    (items : list item) (using_static : list string) :
  build_items w timings files [] [] s = (inr (items, using_static), s') ->
  fst <$> items = files /\
  Forall (fun it => 0 <= it.2) items /\
  using_static `sublist_of` files /\
  forall f weight, (f, weight) ∈ items -> f ∈ using_static \/ 0 < weight.
Proof.
  intros Hrun.
  destruct (build_items_cases w timings files [] [] s)
    as [(Hall & s1 & Hret)|(_ & s1 & Hraise)]; [|congruence].
  rewrite Hrun in Hret. injection Hret as -> -> _. simpl. split; [|split; [|split]].
  - rewrite <- list_fmap_compose. apply list_fmap_id.
  - apply Forall_fmap, Forall_forall. intros f _. apply weight_of_nonneg.
  - apply sublist_filter.
  - intros f weight (f' & [= -> ->] & Hf)%list_elem_of_fmap.
    unfold weight_of, uses_static.
    destruct (timing_weight timings f') as [e|[z|]] eqn:E.
    + destruct (proj1 (Forall_forall _ _) Hall f' Hf) as [o Ho]. congruence.
    + right. by eapply timing_weight_positive.
    + left. apply list_elem_of_filter. unfold uses_static. by rewrite E.
Qed.

Lemma build_items_shape_witness :
  build_items sample_world (JObj mixed_table)
    ["spec/a_spec.sh"; "spec/c_spec.sh"]%string [] [] start =
    (inr ([("spec/a_spec.sh", 100); ("spec/c_spec.sh", 5)]%string,
          ["spec/a_spec.sh"]%string),
     IO [] [] [CEstimate "spec/a_spec.sh"]) /\
  fst <$> [("spec/a_spec.sh", 100); ("spec/c_spec.sh", 5)]%string =
    ["spec/a_spec.sh"; "spec/c_spec.sh"]%string /\
  Forall (fun it : item => 0 <= it.2)
    [("spec/a_spec.sh", 100); ("spec/c_spec.sh", 5)]%string /\
  ["spec/a_spec.sh"]%string `sublist_of` ["spec/a_spec.sh"; "spec/c_spec.sh"]%string /\
  forall f weight,
    (f, weight) ∈ [("spec/a_spec.sh", 100); ("spec/c_spec.sh", 5)]%string ->
    f ∈ ["spec/a_spec.sh"]%string \/ 0 < weight.
Proof.
  assert (H : build_items sample_world (JObj mixed_table)
                ["spec/a_spec.sh"; "spec/c_spec.sh"]%string [] [] start =
              (inr ([("spec/a_spec.sh", 100); ("spec/c_spec.sh", 5)]%string,
                    ["spec/a_spec.sh"]%string),
               IO [] [] [CEstimate "spec/a_spec.sh"]))
    by (vm_compute; reflexivity).
  split; [exact H|].
  exact (build_items_shape sample_world (JObj mixed_table) _ start _ _ _ H).
Defined.

(** X7. A timing entry of a type that cannot be compared with zero stops
    the run: when the table holds, for some discovered file, a string, a
    list, a mapping or null, and the estimator returns wherever it is
    called, the weighing loop raises a TypeError and nothing has reached
    the primary stream. *)
Theorem build_items_type_error
    (w : world) (table : gmap string json) (files : list string) (s : io)
    (f : string) (v : json) :
  f ∈ files -> table !! f = Some v -> unordered v ->
  estimator_returns w files ->
  exists s',
    build_items w (JObj table) files [] [] s = (inl (Raise TypeError), s') /\
    stdout s' = stdout s.
Proof.
  intros Hf Hv Hcmp _.
  assert (Hraise : timing_weight (JObj table) f = inl TypeError).
  { unfold timing_weight. rewrite Hv. by destruct v. }
  destruct (build_items_cases w (JObj table) files [] [] s)
    as [(Hall & _)|(_ & s' & Hrun)].
  - destruct (proj1 (Forall_forall _ _) Hall f Hf) as [o Ho]. congruence.
  - exists s'. split; [done|].
    pose proof (quiet_build_items w (JObj table) files [] [] s) as [Hq _].
    by rewrite Hrun in Hq.
Qed.

Lemma build_items_type_error_witness :
  "spec/a_spec.sh"%string ∈ ["spec/a_spec.sh"]%string /\
  (<["spec/a_spec.sh"%string := JStr "fast"]> ∅ : gmap string json)
    !! "spec/a_spec.sh"%string = Some (JStr "fast") /\
  unordered (JStr "fast") /\
  estimator_returns sample_world ["spec/a_spec.sh"]%string /\
  exists s',
    build_items sample_world (JObj (<["spec/a_spec.sh"%string := JStr "fast"]> ∅))
      ["spec/a_spec.sh"]%string [] [] start = (inl (Raise TypeError), s') /\
    stdout s' = stdout start.
Proof.
  assert (H4 : estimator_returns sample_world ["spec/a_spec.sh"]%string).
  { repeat constructor. intros s. exists 100, s. reflexivity. }
  assert (H1 : "spec/a_spec.sh"%string ∈ ["spec/a_spec.sh"]%string)
    by (apply elem_of_cons; by left).
  assert (H2 : (<["spec/a_spec.sh"%string := JStr "fast"]> ∅ : gmap string json)
                 !! "spec/a_spec.sh"%string = Some (JStr "fast"))
    by reflexivity.
  assert (H3 : unordered (JStr "fast")) by exact I.
  repeat (split; [assumption|]).
  exact (build_items_type_error sample_world _ _ start _ _ H1 H2 H3 H4).
Defined.

(** * Further properties of discovery *)

Lemma string_app_assoc (a b c : string) : (a +:+ b) +:+ c = a +:+ (b +:+ c).
Proof.
  induction a as [|x a IH]; [done|].
  by rewrite !string_app_cons, IH.
Qed.

Lemma string_app_nil_r (a : string) : a +:+ EmptyString = a.
Proof. induction a as [|x a IH]; [done|]. by rewrite string_app_cons, IH. Qed.

Lemma rev_app_spec (s1 s2 : string) :
  String.rev_app s1 s2 = String.rev s1 +:+ s2.
Proof.
  unfold String.rev. revert s2. induction s1 as [|a s1 IH]; intros s2; simpl; [done|].
  rewrite IH, (IH (String a EmptyString)), string_app_assoc. done.
Qed.

Lemma string_rev_cons a (s : string) :
  String.rev (String a s) = String.rev s +:+ String a EmptyString.
Proof. unfold String.rev at 1. simpl. apply rev_app_spec. Qed.

Lemma string_rev_app (s1 s2 : string) :
  String.rev (s1 +:+ s2) = String.rev s2 +:+ String.rev s1.
Proof.
  induction s1 as [|a s1 IH].
  - change (EmptyString +:+ s2) with s2. by rewrite string_app_nil_r.
  - by rewrite string_app_cons, !string_rev_cons, IH, string_app_assoc.
Qed.

Lemma string_rev_involutive (s : string) : String.rev (String.rev s) = s.
Proof.
  induction s as [|a s IH]; [done|].
  by rewrite string_rev_cons, string_rev_app, IH.
Qed.

Lemma endswith_iff (s suffix : string) :
  endswith s suffix = true <-> exists stem, s = stem +:+ suffix.
Proof.
  unfold endswith. rewrite prefix_iff. split.
  - intros [r Hr]. exists (String.rev r).
    by rewrite <- (string_rev_involutive s), Hr, string_rev_app, string_rev_involutive.
  - intros [stem ->]. exists (String.rev stem). apply string_rev_app.
Qed.

(** A name with no separator in it. *)
Lemma path_name_go_plain (name acc : string) :
  (forall a b, name <> a +:+ String "/" b) ->
  path_name_go acc name = String.rev acc +:+ name.
Proof.
  revert acc. induction name as [|c name IH]; intros acc Hplain; simpl.
  - by rewrite string_app_nil_r.
  - destruct (Ascii.eqb_spec c "/") as [->|Hc].
    + by destruct (Hplain EmptyString name).
    + rewrite IH, string_rev_cons, string_app_assoc; [done|].
      intros a b ->. by destruct (Hplain (String c a) b).
Qed.

Lemma path_name_go_last (dir name acc : string) :
  (forall a b, name <> a +:+ String "/" b) ->
  path_name_go acc (dir +:+ String "/" name) = name.
Proof.
  intros Hplain. revert acc. induction dir as [|c dir IH]; intros acc.
  - change (EmptyString +:+ String "/" name) with (String "/" name). simpl.
    by rewrite path_name_go_plain.
  - rewrite string_app_cons. simpl. destruct (Ascii.eqb c "/"); apply IH.
Qed.

(** X8. Discovery returns exactly the entries of the tree whose name matches
    the pattern: the result rearranges the matching entries without losing
    or inventing one, stands in ascending order, and is empty when the
    [spec] directory is missing.  An entry matches when its final path
    component ends in [_spec.sh]; so a file [dir/stem_spec.sh] matches in
    any directory, and a name alone matches when it ends in [_spec.sh]. *)
Theorem get_all_spec_files_exact (w : world) :
  match spec_tree w with
  | None => get_all_spec_files w = []
  | Some entries =>
      get_all_spec_files w ≡ₚ filter (fun p => is_spec_name p = true) entries /\
      (forall p, p ∈ get_all_spec_files w <-> p ∈ entries /\ is_spec_name p = true)
  end /\
  StronglySorted (fun a b => String.leb a b = true) (get_all_spec_files w) /\
  (forall p, is_spec_name p = true <-> exists stem, path_name p = stem +:+ "_spec.sh") /\
  (forall dir name,
     (forall a b, name <> a +:+ String "/" b) ->
     path_name (dir +:+ String "/" name) = name /\ path_name name = name).
Proof.
  split; [|split; [|split]].
  - unfold get_all_spec_files. destruct (spec_tree w) as [entries|]; [|done].
    split; [apply sorted_perm|].
    intros p. rewrite sorted_perm, list_elem_of_filter. tauto.
  - unfold get_all_spec_files. destruct (spec_tree w) as [entries|]; [|constructor].
    apply sorted_strongly; [apply string_leb_total|apply string_leb_trans].
  - intros p. apply endswith_iff.
  - intros dir name Hplain. split.
    + by apply path_name_go_last.
    + unfold path_name. by rewrite path_name_go_plain.
Qed.

Lemma plain_name_a_spec : forall a b, "a_spec.sh"%string <> a +:+ String "/" b.
Proof.
  intros a b H.
  do 9 (destruct a as [|? a];
        [discriminate H|rewrite string_app_cons in H; injection H as _ H]).
  destruct a; discriminate H.
Qed.

Lemma get_all_spec_files_exact_witness :
  get_all_spec_files sample_world ≡ₚ
    filter (fun p => is_spec_name p = true)
      ["spec/b_spec.sh"; "spec/helper.sh"; "spec/c_spec.sh"; "spec/a_spec.sh"]%string /\
  path_name ("spec" +:+ String "/" "a_spec.sh") = "a_spec.sh"%string.
Proof.
  destruct (get_all_spec_files_exact sample_world) as (Htree & _ & _ & Hname).
  split.
  - exact (proj1 Htree).
  - exact (proj1 (Hname "spec"%string "a_spec.sh"%string plain_name_a_spec)).
Defined.

(** * Further properties of the driver *)

Lemma tame_ret {A} (a : A) : tame (ret a).
Proof. intros s. split; [done|]. split; [|done]. exists []. by rewrite (right_id_L [] (++)). Qed.

Lemma tame_eprint d : tame (eprint d).
Proof. intros s. split; [done|]. split; [|done]. by exists [d]. Qed.

Lemma tame_enter c : tame (enter c).
Proof. intros s. split; [done|]. split; [|done]. exists []. by rewrite (right_id_L [] (++)). Qed.

Lemma tame_raise {A} e : tame (@raise A e).
Proof. intros s. split; [done|]. split; [|done]. exists []. by rewrite (right_id_L [] (++)). Qed.

Lemma tame_lift {A} (r : exn + A) : tame (lift r).
Proof. destruct r; [apply tame_raise|apply tame_ret]. Qed.

Lemma tame_bind {A B} (m : M A) (f : A -> M B) :
  tame m -> (forall a, tame (f a)) -> tame (bind m f).
Proof.
  intros Hm Hf s. rewrite bind_eq. destruct (Hm s) as (Hout & [d Herr] & Hne).
  destruct (m s) as [[e|a] s1]; simpl in *.
  - split; [done|]. split; [by exists d|]. intros code [= ->]. by destruct (Hne code).
  - destruct (Hf a s1) as (Hout' & [d' Herr'] & Hne').
    split; [congruence|]. split; [|done].
    exists (d ++ d'). by rewrite Herr', Herr, (assoc_L (++)).
Qed.

Lemma tame_load_timings w timing_file : tame (load_timings w timing_file).
Proof.
  unfold load_timings. destruct (timing_doc w timing_file) as [e|data].
  - destruct (caught_by_loader e); [|apply tame_raise].
    apply tame_bind; [apply tame_eprint|intros _; apply tame_ret].
  - destruct data; first [apply tame_raise | apply tame_ret].
Qed.

Lemma tame_calculate_static_weight w spec_file :
  tame (calculate_static_weight w spec_file).
Proof.
  unfold calculate_static_weight. destruct (spec_source w spec_file).
  - apply tame_ret.
  - apply tame_bind; [apply tame_eprint|intros _; apply tame_ret].
  - apply tame_ret.
Qed.

Lemma tame_build_items w timings files items using_static :
  tame (build_items w timings files items using_static).
Proof.
  revert items using_static. induction files as [|f files IH]; intros items us.
  - apply tame_ret.
  - cbn [build_items]. apply tame_bind; [apply tame_lift|].
    intros [weight|]; [apply IH|].
    apply tame_bind; [apply tame_enter|]. intros _.
    apply tame_bind; [apply tame_calculate_static_weight|]. intros weight.
    apply IH.
Qed.

Lemma tame_report i bins bin_weights : tame (report i bins bin_weights).
Proof.
  revert i bin_weights. induction bins as [|b bins IH]; intros i [|wt ws];
    try apply tame_ret.
  cbn [report]. apply tame_bind.
  { destruct (fits_float wt); [apply tame_ret|apply tame_raise]. }
  intros _. apply tame_bind; [apply tame_eprint|]. intros _. apply IH.
Qed.

Lemma tame_if {A} (c : bool) (a b : M A) :
  tame a -> tame b -> tame (if c then a else b).
Proof. by destruct c. Qed.

Ltac tame_tac :=
  repeat first
    [ apply tame_ret | apply tame_eprint | apply tame_enter
    | apply tame_raise | apply tame_lift | apply tame_if
    | apply tame_load_timings | apply tame_build_items | apply tame_report
    | apply tame_bind | intros ? ].

(** Unfolds the leading [bind] of [H]; when the first computation stops it
    can only have raised, with the primary stream as it was. *)
Tactic Notation "tstep" hyp(H) "as" ident(a) ident(s1) ident(E) :=
  match type of H with
  | bind ?m ?f ?s = _ =>
      let Hq := fresh "Hq" in
      let Hout := fresh "Hout" in
      let Hne := fresh "Hne" in
      let e := fresh "e" in
      let code := fresh "code" in
      assert (Hq : tame m) by tame_tac;
      destruct (Hq s) as (Hout & _ & Hne); clear Hq;
      rewrite bind_eq in H;
      destruct (m s) as [[e|a] s1] eqn:E; simpl in Hout, Hne;
      [injection H as <- <-; right; right;
       destruct e as [code|e];
       [by destruct (Hne code)|exists e; split; [done|congruence]]|]
  end.

Lemma app_singleton_not_nil {A} (l : list A) x : l ++ [x] <> [].
Proof. by destruct l. Qed.

Lemma main_outcome w argv s r s' :
  main w argv s = (r, s') ->
  (r = inr tt /\ exists line, stdout s' = stdout s ++ [line]) \/
  (r = inl (Exit 1) /\ stdout s' = stdout s /\ stderr s' <> []) \/
  (exists e, r = inl (Raise e) /\ stdout s' = stdout s).
Proof.
  intros H. unfold main in H.
  destruct argv as [|a0 [|a1 [|a2 [|a3 [|a4 rest]]]]];
    try (injection H as <- <-; right; left; simpl;
         repeat (split; [done|]); apply app_singleton_not_nil).
  { injection H as <- <-. right. right. by exists IndexError. }
  tstep H as num_chunks s1 E1. tstep H as chunk_index s2 E2.
  destruct ((chunk_index <? 0) || (chunk_index >=? num_chunks)).
  { injection H as <- <-. right. left. simpl.
    split; [done|]. split; [congruence|apply app_singleton_not_nil]. }
  tstep H as u3 s3 E3. tstep H as timings s4 E4. tstep H as u5 s5 E5.
  destruct (get_all_spec_files w) as [|f files].
  { injection H as <- <-. right. left. simpl.
    split; [done|]. split; [congruence|apply app_singleton_not_nil]. }
  tstep H as built s6 E6.
  match type of H with
  | bind ?m _ _ = _ => assert (Hus : tame m) by (destruct (built.2); tame_tac)
  end.
  destruct (Hus s6) as (Hout7 & _ & Hne7). rewrite bind_eq in H.
  match type of H with
  | context [?m s6] =>
      destruct (m s6) as [[e7|u7] s7] eqn:E7; simpl in Hout7, Hne7;
      [injection H as <- <-; right; right; destruct e7 as [code|e7];
       [by destruct (Hne7 code)|exists e7; split; [done|congruence]]|]
  end.
  tstep H as u8 s8 E8. tstep H as packed s9 E9. tstep H as u9 s9' E9'.
  tstep H as u10 s10 E10.
  tstep H as u11 s11 E11. tstep H as chunk s12 E12.
  left.
  assert (Hprint : print (join " " (fst <$> chunk)) s12 = (r, s')).
  { destruct chunk as [|it rest]; exact H. }
  unfold print in Hprint. injection Hprint as <- <-. simpl.
  split; [done|]. eexists. f_equal. congruence.
Qed.

(** X9. Every run ends in one of two ways, whatever the arguments and the
    environment: with status 0 and exactly one line on the primary stream,
    or with status 1, nothing on the primary stream and at least one line
    on the error stream.  Diagnostics never reach the primary stream. *)
Theorem main_stream_discipline (w : world) (argv : list string) :
  ((run (main w argv)).1 = 0 /\
   exists line, stdout (run (main w argv)).2 = [line]) \/
  ((run (main w argv)).1 = 1 /\
   stdout (run (main w argv)).2 = [] /\
   stderr (run (main w argv)).2 <> []).
Proof.
  unfold run. destruct (main w argv start) as [r s'] eqn:Hmain.
  destruct (main_outcome _ _ _ _ _ Hmain)
    as [(-> & line & Hout)|[(-> & Hout & Herr)|(e & -> & Hout)]]; simpl.
  - left. split; [done|]. by exists line.
  - right. done.
  - right. split; [done|]. split; [done|]. apply app_singleton_not_nil.
Qed.

(** ** Runs that stop before the packing *)

(** X10. With any number of arguments other than three after the program
    name, the run prints the usage line and the example line on the error
    stream and exits with status 1; nothing is parsed, loaded or packed. *)
Theorem main_usage_error (w : world) (prog : string) (args : list string) :
  length args <> 3%nat ->
  run (main w (prog :: args)) = (1, IO [] [DUsage prog; DExample prog] []).
Proof.
  intros Hlen. destruct args as [|a1 [|a2 [|a3 [|a4 rest]]]]; try done.
Qed.

Lemma main_usage_error_witness :
  length ["t.json"; "2"]%string <> 3%nat /\
  run (main sample_world ["prog"; "t.json"; "2"]%string) =
    (1, IO [] [DUsage "prog"; DExample "prog"] []).
Proof.
  assert (H : length ["t.json"; "2"]%string <> 3%nat) by (simpl; lia).
  split; [exact H|]. exact (main_usage_error sample_world "prog" _ H).
Defined.

(** X11. An argument that [int] rejects, in either numeric position, ends
    the run with a ValueError traceback and status 1 before anything is
    loaded; the chunk count is parsed first. *)
Theorem main_rejects_non_integer
    (w : world) (prog timing_file a2 a3 : string) :
  int_of w a2 = None \/ int_of w a3 = None ->
  run (main w [prog; timing_file; a2; a3]) = (1, IO [] [DTraceback ValueError] []).
Proof.
  intros Hbad. unfold run, main. rewrite bind_eq.
  destruct (int_of w a2) as [n|] eqn:H2; [|done].
  destruct Hbad as [Hbad|Hbad]; [done|]. simpl. rewrite bind_eq, Hbad. done.
Qed.

Lemma main_rejects_non_integer_witness :
  (int_of sample_world "two" = None \/ int_of sample_world "0" = None) /\
  run (main sample_world ["prog"; "t.json"; "two"; "0"]%string) =
    (1, IO [] [DTraceback ValueError] []).
Proof.
  assert (H : int_of sample_world "two" = None \/ int_of sample_world "0" = None)
    by (left; reflexivity).
  split; [exact H|].
  exact (main_rejects_non_integer sample_world "prog" "t.json" "two" "0" H).
Defined.

Lemma main_enters w prog timing_file a2 a3 num_chunks chunk_index :
  int_of w a2 = Some num_chunks -> int_of w a3 = Some chunk_index ->
  0 <= chunk_index < num_chunks ->
  main w [prog; timing_file; a2; a3] start =
    bind (load_timings w timing_file) (fun timings =>
      enter CDiscover ;;
      match get_all_spec_files w with
      | [] => eprint DNoSpecFiles ;; sys_exit 1
      | _ =>
          built <~ build_items w timings (get_all_spec_files w) [] [] ;
          (match built.2 with
           | [] => ret tt
           | _ => eprint (DUsingStatic (length built.2))
           end) ;;
          enter (CPack built.1 num_chunks) ;;
          packed <~ lift (bin_packing_ffd built.1 num_chunks) ;
          (if num_chunks >? 0 then
             if true_divide_fits (sumZ packed.2) num_chunks
             then ret tt else raise OverflowError
           else ret tt) ;;
          eprint DDistribution ;;
          report 0 packed.1 packed.2 ;;
          chunk_files <~
            lift (from_option inr (inl IndexError) (packed.1 !! Z.to_nat chunk_index)) ;
          match chunk_files with
          | [] => print ""
          | _ => print (join " " (fst <$> chunk_files))
          end
      end) (IO [] [] [CLoad timing_file]).
Proof.
  intros H2 H3 Hin. unfold main. rewrite bind_eq, H2. simpl.
  rewrite bind_eq, H3. simpl.
  assert ((chunk_index <? 0) || (chunk_index >=? num_chunks) = false) as ->.
  { apply orb_false_iff. rewrite Z.ltb_ge, Z.geb_leb, Z.leb_gt. lia. }
  rewrite bind_eq. done.
Qed.

Lemma load_timings_raises w timing_file e s :
  (timing_doc w timing_file = OpenRaises e /\ caught_by_loader e = false) \/
  (not_a_mapping (timing_doc w timing_file) /\ e = AttributeError) ->
  load_timings w timing_file s = (inl (Raise e), s).
Proof.
  intros [[Hdoc Hc]|[Hdoc ->]].
  - unfold load_timings. by rewrite Hdoc, Hc.
  - by apply load_timings_not_a_mapping.
Qed.

(** X12. An exception of the timing resource that the loader does not
    catch (any error of [open] other than a missing file, or a document
    that is not a mapping) ends the run with its traceback and status 1
    right after the load: no discovery, no estimate, no packing. *)
Theorem main_loader_exception
    (w : world) (prog timing_file a2 a3 : string) (num_chunks chunk_index : Z)
    (e : exn) :
  int_of w a2 = Some num_chunks -> int_of w a3 = Some chunk_index ->
  0 <= chunk_index < num_chunks ->
  (timing_doc w timing_file = OpenRaises e /\ caught_by_loader e = false) \/
  (not_a_mapping (timing_doc w timing_file) /\ e = AttributeError) ->
  run (main w [prog; timing_file; a2; a3]) =
    (1, IO [] [DTraceback e] [CLoad timing_file]).
Proof.
  intros H2 H3 Hin Hdoc. unfold run.
  rewrite (main_enters _ _ _ _ _ _ _ H2 H3 Hin), bind_eq.
  by rewrite (load_timings_raises _ _ _ _ Hdoc).
Qed.

Lemma main_loader_exception_witness :
  int_of list_world "1" = Some 1 /\ int_of list_world "0" = Some 0 /\
  0 <= 0 < 1 /\
  ((timing_doc list_world "t.json" = OpenRaises AttributeError /\
    caught_by_loader AttributeError = false) \/
   (not_a_mapping (timing_doc list_world "t.json") /\ AttributeError = AttributeError)) /\
  run (main list_world ["prog"; "t.json"; "1"; "0"]%string) =
    (1, IO [] [DTraceback AttributeError] [CLoad "t.json"]).
Proof.
  assert (H1 : 0 <= 0 < 1) by lia.
  assert (H2 : (timing_doc list_world "t.json" = OpenRaises AttributeError /\
                caught_by_loader AttributeError = false) \/
               (not_a_mapping (timing_doc list_world "t.json") /\
                AttributeError = AttributeError)).
  { right. split; [|done]. exists (JArr []). split; [done|]. intros m. discriminate. }
  repeat (split; [first [reflexivity | assumption]|]).
  exact (main_loader_exception list_world "prog" "t.json" "1" "0" 1 0 AttributeError
           eq_refl eq_refl H1 H2).
Defined.

(** ** Runs that reach discovery *)

(** When the loader returns, it has written at most its one diagnostic. *)
Lemma load_timings_effect w timing_file timings s :
  (load_timings w timing_file start).1 = inr timings ->
  exists d, load_timings w timing_file s =
              (inr timings, IO (stdout s) (stderr s ++ d) (calls s)) /\
            (length d <= 1)%nat.
Proof.
  unfold load_timings. destruct (timing_doc w timing_file) as [e|data].
  - destruct (caught_by_loader e); [|done]. simpl. intros [= <-].
    exists [DLoadError e]. done.
  - destruct data; try done. simpl. intros [= <-].
    exists []. rewrite (right_id_L [] (++)). split; [by destruct s|simpl; lia].
Qed.

Lemma calculate_static_weight_effect w spec_file s :
  exists d, calculate_static_weight w spec_file s =
              (inr (static_estimate w spec_file),
               IO (stdout s) (stderr s ++ d) (calls s)).
Proof.
  unfold static_estimate, calculate_static_weight.
  destruct (spec_source w spec_file); simpl.
  - exists []. rewrite (right_id_L [] (++)). by destruct s.
  - by exists [DWeightWarning spec_file].
  - exists []. rewrite (right_id_L [] (++)). by destruct s.
Qed.

(** The loop calls the estimator for the files that use a static weight,
    in order, and for no other file. *)
Lemma build_items_effect w timings files items using_static s :
  Forall (fun f => exists o, timing_weight timings f = inr o) files ->
  exists d,
    build_items w timings files items using_static s =
      (inr (items ++ ((fun f => (f, weight_of w timings f)) <$> files),
            using_static ++ filter (fun f => uses_static timings f = true) files),
       IO (stdout s) (stderr s ++ d)
          (calls s ++
             (CEstimate <$> filter (fun f => uses_static timings f = true) files))).
Proof.
  intros Hall. revert items using_static s.
  induction Hall as [|f files [o Ho] Hall IH]; intros items us s.
  - exists []. simpl. rewrite filter_nil, !(right_id_L [] (++)). by destruct s.
  - cbn [build_items]. rewrite bind_eq, Ho, fmap_cons.
    assert (weight_of w timings f =
            match o with Some z => z | None => static_estimate w f end) as ->.
    { unfold weight_of. rewrite Ho. by destruct o. }
    assert (uses_static timings f = match o with Some _ => false | None => true end)
      as Hu.
    { unfold uses_static. rewrite Ho. by destruct o. }
    simpl. destruct o as [z|].
    + rewrite filter_cons_False by (rewrite Hu; done).
      destruct (IH (items ++ [(f, z)]) us s) as [d ->].
      exists d. by rewrite <- (assoc_L (++)).
    + rewrite filter_cons_True by done. rewrite !bind_eq. simpl. rewrite bind_eq.
      destruct (calculate_static_weight_effect w f
                  (IO (stdout s) (stderr s) (calls s ++ [CEstimate f]))) as [d1 ->].
      simpl.
      destruct (IH (items ++ [(f, static_estimate w f)]) (us ++ [f])
                  (IO (stdout s) (stderr s ++ d1) (calls s ++ [CEstimate f])))
        as [d ->].
      exists (d1 ++ d). cbn [stdout stderr calls].
      rewrite <- !(assoc_L (++)). reflexivity.
Qed.

Lemma float_limit_pos : 0 < float_limit.
Proof. by vm_compute. Qed.

#[global] Opaque float_limit.

Lemma fitting_all l : all_fit l = true -> fitting l = l.
Proof.
  induction l as [|bw l IH]; [done|]. simpl.
  intros [-> Hl]%andb_true_iff. by rewrite IH.
Qed.

(** The summary writes the lines of the chunks before the first weight
    that does not convert, and raises there. *)
Lemma report_lines i bins bin_weights s :
  report i bins bin_weights s =
    (if all_fit (zip bins bin_weights) then inr tt else inl (Raise OverflowError),
     IO (stdout s)
        (stderr s ++
           imap (fun k bw => DChunk (i + k) bw.2 (length bw.1))
                (fitting (zip bins bin_weights)))
        (calls s)).
Proof.
  revert i bin_weights s. induction bins as [|b bins IH]; intros i ws s.
  - simpl. rewrite (right_id_L [] (++)). by destruct s.
  - destruct ws as [|wt ws].
    + simpl. rewrite (right_id_L [] (++)). by destruct s.
    + cbn [report zip zip_with all_fit forallb fitting fst snd]. rewrite bind_eq.
      destruct (fits_float wt) eqn:Hfit.
      * cbn [ret andb]. rewrite bind_eq. cbn [eprint].
        rewrite IH, imap_cons. cbn [stdout stderr calls fst snd].
        rewrite <- (assoc_L (++)), Nat.add_0_r. cbn [app]. fold (all_fit (zip bins ws)).
        do 4 f_equal. apply imap_ext. intros k bw _. simpl. f_equal. lia.
      * cbn [raise andb imap]. rewrite (right_id_L [] (++)). by destruct s.
Qed.

Lemma report_effect i bins bin_weights s :
  all_fit (zip bins bin_weights) = true ->
  exists d, report i bins bin_weights s =
              (inr tt, IO (stdout s) (stderr s ++ d) (calls s)) /\
            length d = Nat.min (length bins) (length bin_weights).
Proof.
  intros Hfit. rewrite report_lines, Hfit, (fitting_all _ Hfit).
  eexists. split; [done|]. by rewrite length_imap, length_zip.
Qed.

(** X13. When the arguments are accepted and the loader returns but
    discovery finds no spec file, the run reports it on the error stream
    and exits with status 1 after the load and the discovery only: nothing
    is estimated or packed and nothing reaches the primary stream. *)
Theorem main_no_spec_files
    (w : world) (prog timing_file a2 a3 : string) (num_chunks chunk_index : Z)
    (timings : json) :
  int_of w a2 = Some num_chunks -> int_of w a3 = Some chunk_index ->
  0 <= chunk_index < num_chunks ->
  (load_timings w timing_file start).1 = inr timings ->
  get_all_spec_files w = [] ->
  exists d,
    run (main w [prog; timing_file; a2; a3]) =
      (1, IO [] (d ++ [DNoSpecFiles]) [CLoad timing_file; CDiscover]) /\
    (length d <= 1)%nat.
Proof.
  intros H2 H3 Hin Hload Hfiles. unfold run.
  rewrite (main_enters _ _ _ _ _ _ _ H2 H3 Hin), bind_eq.
  destruct (load_timings_effect w timing_file timings
              (IO [] [] [CLoad timing_file]) Hload) as (d & -> & Hd).
  rewrite Hfiles. exists d. done.
Qed.

Lemma main_no_spec_files_witness :
  int_of bare_world "2" = Some 2 /\ int_of bare_world "1" = Some 1 /\
  0 <= 1 < 2 /\
  (load_timings bare_world "t.json" start).1 = inr (JObj ∅) /\
  get_all_spec_files bare_world = [] /\
  exists d,
    run (main bare_world ["prog"; "t.json"; "2"; "1"]%string) =
      (1, IO [] (d ++ [DNoSpecFiles]) [CLoad "t.json"; CDiscover]) /\
    (length d <= 1)%nat.
Proof.
  assert (H : 0 <= 1 < 2) by lia.
  repeat (split; [first [reflexivity | exact H]|]).
  exact (main_no_spec_files bare_world "prog" "t.json" "2" "1" 2 1 (JObj ∅)
           eq_refl eq_refl H eq_refl eq_refl).
Defined.

(** ** Runs that succeed *)

Lemma sumZ_elem_le (ws : list Z) a :
  Forall (fun x => 0 <= x) ws -> a ∈ ws -> a <= sumZ ws.
Proof.
  induction 1 as [|x ws Hx Hws IH]; [by intros ?%elem_of_nil|].
  assert (0 <= sumZ ws).
  { clear IH. induction Hws as [|y ws Hy Hws IH]; simpl; [done|]. unfold sumZ in *. lia. }
  intros [->|Ha]%elem_of_cons; simpl; [|specialize (IH Ha)]; unfold sumZ in *; lia.
Qed.

Lemma sumZ_nonneg (l : list Z) : Forall (fun x => 0 <= x) l -> 0 <= sumZ l.
Proof. induction 1 as [|x l Hx Hl IH]; simpl; [done|]. unfold sumZ in *. lia. Qed.

(** With no negative weight, a total below the limit keeps the mean and
    every bin weight convertible. *)
Lemma packed_weights_fit items num_bins bins bin_weights :
  1 <= num_bins ->
  Forall (fun it : item => 0 <= it.2) items ->
  sumZ (snd <$> items) < float_limit ->
  bin_packing_ffd items num_bins = inr (bins, bin_weights) ->
  true_divide_fits (sumZ bin_weights) num_bins = true /\
  all_fit (zip bins bin_weights) = true.
Proof.
  intros Hn Hpos Htot Hpack.
  destruct (bin_packing_ffd_steps items num_bins Hn) as ([bins' ws'] & Hr & Hs).
  rewrite Hpack in Hr. simplify_eq.
  assert (Hsum : sumZ ws' = sumZ (snd <$> items)).
  { rewrite (ffd_steps_total _ _ _ _ _ Hs), sumZ_replicate_zero. simpl.
    apply sumZ_perm, fmap_Permutation, sorted_perm. }
  assert (Hw : Forall2 weighs bins' ws').
  { eapply ffd_steps_weighs; [exact Hs|]. by apply Forall2_replicate. }
  assert (Hmem : concat bins' ≡ₚ items).
  { rewrite (ffd_steps_members _ _ _ _ _ Hs), concat_replicate_nil. simpl.
    apply sorted_perm. }
  assert (Hnn : Forall (fun x => 0 <= x) ws').
  { apply Forall_forall. intros a (k & Hk)%list_elem_of_lookup_1.
    destruct (Forall2_lookup_r _ _ _ _ _ Hw Hk) as (b & Hb & ->).
    apply sumZ_nonneg, Forall_fmap, Forall_forall. intros it Hit. simpl.
    apply (proj1 (Forall_forall _ _) Hpos). rewrite <- Hmem.
    apply elem_of_concat. eauto. }
  pose proof float_limit_pos as HL.
  pose proof (sumZ_nonneg _ Hnn) as Htn.
  split.
  - unfold true_divide_fits. apply Z.ltb_lt. rewrite !Z.abs_eq by lia. nia.
  - unfold all_fit. apply forallb_forall. intros [b a] Hin%list_elem_of_In.
    apply list_elem_of_lookup_1 in Hin as [k Hk].
    apply lookup_zip_with_Some in Hk as (b' & a' & [= <- <-] & Hb & Ha).
    assert (0 <= a) by (apply (proj1 (Forall_forall _ _) Hnn); by eapply list_elem_of_lookup_2).
    assert (a <= sumZ ws') by (apply sumZ_elem_le; [done|by eapply list_elem_of_lookup_2]).
    unfold fits_float. simpl. apply Z.ltb_lt. rewrite Z.abs_eq by lia. lia.
Qed.

(** X14. When the arguments are accepted, the loader returns, discovery
    finds at least one spec file, no timing of a discovered file raises, the
    estimator returns for every file that needs it and the weights add up
    to less than the largest integer that converts to a float, the run
    exits with status 0 and prints one line: the space-separated names of
    bin [chunk_index] of the packing of one item per discovered file,
    weighed by its positive timing or else by its static estimate.  The
    estimator is called for exactly the files without a positive timing, in
    discovery order, the packer is called once after them, and the error
    stream ends with the distribution header and one line per chunk. *)
Theorem main_success
    (w : world) (prog timing_file a2 a3 : string) (num_chunks chunk_index : Z)
    (timings : json) :
  int_of w a2 = Some num_chunks -> int_of w a3 = Some chunk_index ->
  0 <= chunk_index < num_chunks ->
  (load_timings w timing_file start).1 = inr timings ->
  get_all_spec_files w <> [] ->
  Forall (fun f => exists o, timing_weight timings f = inr o) (get_all_spec_files w) ->
  estimator_returns w
    (filter (fun f => uses_static timings f = true) (get_all_spec_files w)) ->
  sumZ ((fun f => weight_of w timings f) <$> get_all_spec_files w) < float_limit ->
  exists bins bin_weights chunk notes lines,
    bin_packing_ffd
      ((fun f => (f, weight_of w timings f)) <$> get_all_spec_files w) num_chunks
      = inr (bins, bin_weights) /\
    bins !! Z.to_nat chunk_index = Some chunk /\
    length lines = Z.to_nat num_chunks /\
    run (main w [prog; timing_file; a2; a3]) =
      (0, IO [join " " (fst <$> chunk)]
             (notes ++ DDistribution :: lines)
             ([CLoad timing_file; CDiscover] ++
              (CEstimate <$> filter (fun f => uses_static timings f = true)
                               (get_all_spec_files w)) ++
              [CPack ((fun f => (f, weight_of w timings f)) <$> get_all_spec_files w)
                     num_chunks])).
Proof.
  intros H2 H3 Hin Hload Hfiles Hall _ Htotal.
  assert (Hn : 1 <= num_chunks) by lia.
  destruct (bin_packing_ffd_steps
              ((fun f => (f, weight_of w timings f)) <$> get_all_spec_files w)
              num_chunks Hn) as ([bins ws] & Hpack & Hsteps).
  destruct (ffd_steps_length _ _ _ _ _ Hsteps) as [Hlb Hlw].
  rewrite length_replicate in Hlb. rewrite length_replicate in Hlw.
  destruct (lookup_lt_is_Some_2 bins (Z.to_nat chunk_index)) as [chunk Hchunk]; [lia|].
  assert (Hnonneg : Forall (fun it : item => 0 <= it.2)
            ((fun f => (f, weight_of w timings f)) <$> get_all_spec_files w)).
  { apply Forall_fmap, Forall_forall. intros f _. apply weight_of_nonneg. }
  assert (Hbelow : sumZ (snd <$> ((fun f => (f, weight_of w timings f))
                                    <$> get_all_spec_files w)) < float_limit).
  { by rewrite <- list_fmap_compose. }
  destruct (packed_weights_fit _ _ _ _ Hn Hnonneg Hbelow Hpack) as [Hmean Hfit].
  cut (exists notes lines,
    length lines = Z.to_nat num_chunks /\
    run (main w [prog; timing_file; a2; a3]) =
      (0, IO [join " " (fst <$> chunk)]
             (notes ++ DDistribution :: lines)
             ([CLoad timing_file; CDiscover] ++
              (CEstimate <$> filter (fun f => uses_static timings f = true)
                               (get_all_spec_files w)) ++
              [CPack ((fun f => (f, weight_of w timings f)) <$> get_all_spec_files w)
                     num_chunks]))).
  { intros (notes & lines & Hlines & Hrun). by exists bins, ws, chunk, notes, lines. }
  unfold run. rewrite (main_enters _ _ _ _ _ _ _ H2 H3 Hin). unfold bind.
  destruct (load_timings_effect w timing_file timings
              (IO [] [] [CLoad timing_file]) Hload) as (d0 & -> & _).
  cbn [enter stdout stderr calls app].
  destruct (build_items_effect w timings (get_all_spec_files w) [] []
              (IO [] d0 [CLoad timing_file; CDiscover]) Hall) as [d1 Hbuild].
  destruct (get_all_spec_files w) as [|f fs] eqn:Ef; [done|].
  rewrite Hbuild. clear Hbuild.
  cbn [stdout stderr calls app fst snd].
  set (statics := filter (fun f => uses_static timings f = true) (f :: fs)).
  assert (Hnote : forall s, exists d2,
    (match statics with
     | [] => ret tt
     | _ => eprint (DUsingStatic (length statics))
     end) s = (inr tt, IO (stdout s) (stderr s ++ d2) (calls s))).
  { intros s. destruct statics; [exists []|eexists [_]]; simpl; [|done].
    rewrite (right_id_L [] (++)). by destruct s. }
  match goal with
  | |- context [(match statics with [] => _ | _ => _ end) ?s] =>
      destruct (Hnote s) as [d2 ->]
  end.
  cbn [enter stdout stderr calls]. rewrite Hpack.
  cbn [lift ret fst snd]. rewrite Hmean.
  assert ((num_chunks >? 0) = true) as -> by lia.
  cbn [ret eprint stdout stderr calls].
  match goal with
  | |- context [report 0 bins ws ?s] =>
      destruct (report_effect 0 bins ws s Hfit) as (lines & -> & Hlines)
  end.
  cbn [stdout stderr calls]. rewrite Hchunk. cbn [from_option lift ret].
  assert (Hprint : forall s,
            match chunk with
            | [] => print ""
            | _ :: _ => print (join " " (fst <$> chunk))
            end s = print (join " " (fst <$> chunk)) s) by (by destruct chunk).
  rewrite Hprint. unfold print. cbn [stdout stderr calls app].
  exists ((d0 ++ d1) ++ d2), lines.
  split; [lia|]. by rewrite <- !(assoc_L (++)).
Qed.

Lemma main_success_witness :
  int_of sample_world "2" = Some 2 /\ int_of sample_world "1" = Some 1 /\
  0 <= 1 < 2 /\
  (load_timings sample_world "t.json" start).1 =
    inr (JObj (<["spec/a_spec.sh"%string := JInt 10]>
                (<["spec/b_spec.sh"%string := JInt 1]> ∅))) /\
  get_all_spec_files sample_world <> [] /\
  sumZ ((fun f => weight_of sample_world
                    (JObj (<["spec/a_spec.sh"%string := JInt 10]>
                            (<["spec/b_spec.sh"%string := JInt 1]> ∅))) f)
          <$> get_all_spec_files sample_world) < float_limit /\
  run (main sample_world ["prog"; "t.json"; "2"; "1"]%string)
    = (0, IO ["spec/a_spec.sh spec/b_spec.sh"]%string
             [DUsingStatic 1; DDistribution; DChunk 0 100 1; DChunk 1 11 2]
             [CLoad "t.json"; CDiscover; CEstimate "spec/c_spec.sh";
              CPack [("spec/a_spec.sh", 10); ("spec/b_spec.sh", 1);
                     ("spec/c_spec.sh", 100)]%string 2]) /\
  exists bins bin_weights chunk notes lines,
    bin_packing_ffd
      ((fun f => (f, weight_of sample_world
                       (JObj (<["spec/a_spec.sh"%string := JInt 10]>
                               (<["spec/b_spec.sh"%string := JInt 1]> ∅))) f))
         <$> get_all_spec_files sample_world) 2
      = inr (bins, bin_weights) /\
    bins !! Z.to_nat 1 = Some chunk /\
    length lines = Z.to_nat 2 /\
    run (main sample_world ["prog"; "t.json"; "2"; "1"]%string) =
      (0, IO [join " " (fst <$> chunk)]
             (notes ++ DDistribution :: lines)
             ([CLoad "t.json"; CDiscover] ++
              (CEstimate <$>
                 filter (fun f => uses_static
                           (JObj (<["spec/a_spec.sh"%string := JInt 10]>
                                   (<["spec/b_spec.sh"%string := JInt 1]> ∅))) f = true)
                        (get_all_spec_files sample_world)) ++
              [CPack ((fun f => (f, weight_of sample_world
                                     (JObj (<["spec/a_spec.sh"%string := JInt 10]>
                                             (<["spec/b_spec.sh"%string := JInt 1]> ∅))) f))
                        <$> get_all_spec_files sample_world) 2])).
Proof.
  assert (H1 : 0 <= 1 < 2) by lia.
  assert (H2 : get_all_spec_files sample_world <> []) by (vm_compute; discriminate).
  assert (H3 : Forall (fun f => exists o,
                  timing_weight (JObj (<["spec/a_spec.sh"%string := JInt 10]>
                                        (<["spec/b_spec.sh"%string := JInt 1]> ∅))) f
                  = inr o) (get_all_spec_files sample_world)).
  { change (get_all_spec_files sample_world)
      with ["spec/a_spec.sh"; "spec/b_spec.sh"; "spec/c_spec.sh"]%string.
    repeat constructor; eexists; reflexivity. }
  assert (H4 : estimator_returns sample_world
                 (filter (fun f => uses_static
                           (JObj (<["spec/a_spec.sh"%string := JInt 10]>
                                   (<["spec/b_spec.sh"%string := JInt 1]> ∅))) f = true)
                        (get_all_spec_files sample_world))).
  { change (estimator_returns sample_world ["spec/c_spec.sh"]%string).
    repeat constructor. intros s. exists 100, s. reflexivity. }
  assert (H5 : sumZ ((fun f => weight_of sample_world
                        (JObj (<["spec/a_spec.sh"%string := JInt 10]>
                                (<["spec/b_spec.sh"%string := JInt 1]> ∅))) f)
                      <$> get_all_spec_files sample_world) < float_limit)
    by (by vm_compute).
  repeat (split; [first [reflexivity | assumption | vm_compute; reflexivity]|]).
  exact (main_success sample_world "prog" "t.json" "2" "1" 2 1 _
           eq_refl eq_refl H1 eq_refl H2 H3 H4 H5).
Defined.

(** ** What a run that succeeds has printed *)

Lemma load_timings_result w timing_file s1 s2 :
  (load_timings w timing_file s1).1 = (load_timings w timing_file s2).1.
Proof.
  unfold load_timings. destruct (timing_doc w timing_file) as [e|data].
  - by destruct (caught_by_loader e).
  - by destruct data.
Qed.

(** Unfolds the leading [bind] of [H], which states that the whole
    computation returns: so does the first one. *)
Tactic Notation "rstep" hyp(H) "as" ident(a) ident(s1) ident(E) :=
  rewrite bind_eq in H;
  match type of H with
  | context [match ?m ?s with _ => _ end] =>
      let e := fresh "e" in
      destruct (m s) as [[e|a] s1] eqn:E; [discriminate H|]
  end.

Lemma main_returns w argv s s' :
  main w argv s = (inr tt, s') ->
  exists prog timing_file a2 a3 num_chunks chunk_index timings bins bin_weights chunk,
    argv = [prog; timing_file; a2; a3] /\
    int_of w a2 = Some num_chunks /\ int_of w a3 = Some chunk_index /\
    0 <= chunk_index < num_chunks /\
    (load_timings w timing_file start).1 = inr timings /\
    bin_packing_ffd ((fun f => (f, weight_of w timings f)) <$> get_all_spec_files w)
      num_chunks = inr (bins, bin_weights) /\
    bins !! Z.to_nat chunk_index = Some chunk /\
    CPack ((fun f => (f, weight_of w timings f)) <$> get_all_spec_files w) num_chunks
      ∈ calls s' /\
    stdout s' = stdout s ++ [join " " (fst <$> chunk)].
Proof.
  intros H. unfold main in H.
  destruct argv as [|a0 [|a1 [|a2 [|a3 [|a4 rest]]]]]; try discriminate H.
  rstep H as num_chunks s1 E1. rstep H as chunk_index s2 E2.
  destruct (int_of w a2) as [n|] eqn:H2; [|discriminate E1].
  destruct (int_of w a3) as [idx|] eqn:H3; [|discriminate E2].
  injection E1 as <- <-. injection E2 as <- <-.
  destruct ((idx <? 0) || (idx >=? n)) eqn:Hrange; [discriminate H|].
  apply orb_false_iff in Hrange as [Hlo Hhi].
  rstep H as u3 s3 E3. rstep H as timings s4 E4. rstep H as u5 s5 E5.
  assert (Hout5 : stdout s5 = stdout s).
  { injection E3 as _ <-. injection E5 as _ <-. simpl.
    apply (quiet_stdout _ _ _ _ (quiet_load_timings w a1) E4). }
  destruct (build_items_cases w timings (get_all_spec_files w) [] [] s5)
    as [(Hall & s6' & Hbuild)|(_ & s6' & Hbuild)].
  2:{ destruct (get_all_spec_files w); [discriminate H|].
      rewrite bind_eq, Hbuild in H. discriminate H. }
  destruct (get_all_spec_files w) as [|f files] eqn:Hfiles; [discriminate H|].
  rewrite <- Hfiles in *. clear f files Hfiles.
  rewrite bind_eq, Hbuild in H.
  cbn [fst snd app] in H.
  set (items := (fun f => (f, weight_of w timings f)) <$> get_all_spec_files w) in *.
  rewrite bind_eq in H.
  match type of H with
  | context [match ?m s6' with _ => _ end] =>
      assert (Hq : quiet m) by (destruct (filter _ _); quiet_tac);
      destruct (m s6') as [[e7|u7] s7] eqn:E7; [discriminate H|];
      destruct (quiet_run _ _ _ _ Hq E7) as [Hout7 _]
  end.
  rstep H as u8 s8 E8. rstep H as packed s9 E9.
  destruct (bin_packing_ffd items n) as [e|[bins ws]] eqn:Hpack; [discriminate E9|].
  injection E9 as <- <-. cbn [fst snd] in H.
  rstep H as u10 s10 E10. rstep H as u11 s11 E11. rstep H as u12 s12 E12.
  rstep H as chunk s13 E13.
  destruct (bins !! Z.to_nat idx) as [c|] eqn:Hchunk; [|discriminate E13].
  injection E13 as <- <-.
  assert (Hprint : print (join " " (fst <$> c)) s12 = (inr tt, s')).
  { destruct c as [|it rest]; exact H. }
  unfold print in Hprint. injection Hprint as <-.
  exists a0, a1, a2, a3, n, idx, timings, bins, ws, c.
  assert (Hq10 : quiet (if n >? 0
                        then if true_divide_fits (sumZ ws) n
                             then ret tt else raise OverflowError
                        else ret tt)) by quiet_tac.
  destruct (quiet_run _ _ _ _ Hq10 E10) as [Hout10 Hc10].
  destruct (quiet_run _ _ _ _ (quiet_report 0 bins ws) E12) as [Hout12 Hc12].
  injection E8 as _ <-. injection E11 as _ <-. simpl in *.
  split; [done|]. split; [done|]. split; [done|]. split; [lia|].
  split; [by rewrite (load_timings_result w a1 start s3), E4|].
  split; [done|]. split; [done|]. split.
  - apply Hc12, Hc10. set_solver.
  - f_equal.
    pose proof (quiet_stdout _ _ _ _ (quiet_build_items w timings _ [] []) Hbuild).
    congruence.
Qed.

(** C10. In every bin the packer returns, the members stand in
    non-increasing weight order and members of equal weight keep the
    relative order of the input.  Hence the one line a run writes to the
    primary stream lists the files of the selected chunk heaviest first: a
    run that exits with status 0 has accepted its arguments, has packed one
    item per discovered file, weighed by its positive timing or else by
    its static estimate, into [num_chunks] bins, and its primary stream is
    exactly the line of the space-separated names of the bin at
    [chunk_index], in the order of that bin; every other run exits with
    status 1 and leaves the primary stream empty. *)
Theorem bins_heaviest_first
    (items : list item) (num_bins : Z) (bins : list (list item))
    (bin_weights : list Z) (w : world) (argv : list string) :
  bin_packing_ffd items num_bins = inr (bins, bin_weights) ->
  Forall (fun b => StronglySorted not_lighter b /\
                   forall k, filter (same_weight k) b
                               `sublist_of` filter (same_weight k) items) bins /\
  (((run (main w argv)).1 = 0 /\
    exists prog timing_file a2 a3 num_chunks chunk_index timings
           packed_items packed_bins packed_weights chunk,
      argv = [prog; timing_file; a2; a3] /\
      int_of w a2 = Some num_chunks /\ int_of w a3 = Some chunk_index /\
      0 <= chunk_index < num_chunks /\
      (load_timings w timing_file start).1 = inr timings /\
      packed_items =
        (fun f => (f, weight_of w timings f)) <$> get_all_spec_files w /\
      CPack packed_items num_chunks ∈ calls (run (main w argv)).2 /\
      bin_packing_ffd packed_items num_chunks = inr (packed_bins, packed_weights) /\
      packed_bins !! Z.to_nat chunk_index = Some chunk /\
      stdout (run (main w argv)).2 = [join " " (fst <$> chunk)] /\
      StronglySorted not_lighter chunk /\
      forall k, filter (same_weight k) chunk
                  `sublist_of` filter (same_weight k) packed_items) \/
   ((run (main w argv)).1 = 1 /\ stdout (run (main w argv)).2 = [])).
Proof.
  intros Hpack. split; [by eapply bin_packing_ffd_bins_ordered|].
  unfold run. destruct (main w argv start) as [r s'] eqn:Hmain.
  destruct (main_outcome _ _ _ _ _ Hmain)
    as [(-> & _)|[(-> & Hout & _)|(e & -> & Hout)]]; simpl.
  - left. split; [done|].
    destruct (main_returns _ _ _ _ Hmain)
      as (prog & timing_file & a2 & a3 & n & idx & timings & bs & ws & chunk &
          -> & H2 & H3 & Hin & Hload & Hbs & Hchunk & Hcall & Hout).
    exists prog, timing_file, a2, a3, n, idx, timings,
           ((fun f => (f, weight_of w timings f)) <$> get_all_spec_files w),
           bs, ws, chunk.
    repeat (split; [done|]).
    pose proof (bin_packing_ffd_bins_ordered _ _ _ _ Hbs) as Hord.
    exact (proj1 (Forall_lookup _ _) Hord _ _ Hchunk).
  - by right.
  - by right.
Qed.

Lemma bins_heaviest_first_witness :
  bin_packing_ffd [("x", 3); ("y", 7); ("z", 3); ("u", 5)]%string 2 =
    inr ([[("y", 7); ("z", 3)]; [("u", 5); ("x", 3)]]%string, [10; 8]) /\
  run (main sample_world ["prog"; "t.json"; "2"; "1"]%string) =
    (0, IO ["spec/a_spec.sh spec/b_spec.sh"]%string
           [DUsingStatic 1; DDistribution; DChunk 0 100 1; DChunk 1 11 2]
           [CLoad "t.json"; CDiscover; CEstimate "spec/c_spec.sh";
            CPack [("spec/a_spec.sh", 10); ("spec/b_spec.sh", 1);
                   ("spec/c_spec.sh", 100)]%string 2]) /\
  Forall (fun b => StronglySorted not_lighter b /\
                   forall k, filter (same_weight k) b `sublist_of`
                     filter (same_weight k) [("x", 3); ("y", 7); ("z", 3); ("u", 5)]%string)
         [[("y", 7); ("z", 3)]; [("u", 5); ("x", 3)]]%string /\
  (((run (main sample_world ["prog"; "t.json"; "2"; "1"]%string)).1 = 0 /\
    exists prog timing_file a2 a3 num_chunks chunk_index timings
           packed_items packed_bins packed_weights chunk,
      ["prog"; "t.json"; "2"; "1"]%string = [prog; timing_file; a2; a3] /\
      int_of sample_world a2 = Some num_chunks /\
      int_of sample_world a3 = Some chunk_index /\
      0 <= chunk_index < num_chunks /\
      (load_timings sample_world timing_file start).1 = inr timings /\
      packed_items =
        (fun f => (f, weight_of sample_world timings f))
          <$> get_all_spec_files sample_world /\
      CPack packed_items num_chunks
        ∈ calls (run (main sample_world ["prog"; "t.json"; "2"; "1"]%string)).2 /\
      bin_packing_ffd packed_items num_chunks = inr (packed_bins, packed_weights) /\
      packed_bins !! Z.to_nat chunk_index = Some chunk /\
      stdout (run (main sample_world ["prog"; "t.json"; "2"; "1"]%string)).2
        = [join " " (fst <$> chunk)] /\
      StronglySorted not_lighter chunk /\
      forall k, filter (same_weight k) chunk
                  `sublist_of` filter (same_weight k) packed_items) \/
   ((run (main sample_world ["prog"; "t.json"; "2"; "1"]%string)).1 = 1 /\
    stdout (run (main sample_world ["prog"; "t.json"; "2"; "1"]%string)).2 = [])).
Proof.
  assert (H : bin_packing_ffd [("x", 3); ("y", 7); ("z", 3); ("u", 5)]%string 2 =
              inr ([[("y", 7); ("z", 3)]; [("u", 5); ("x", 3)]]%string, [10; 8]))
    by (vm_compute; reflexivity).
  split; [exact H|]. split; [vm_compute; reflexivity|].
  exact (bins_heaviest_first _ 2 _ _ sample_world
           ["prog"; "t.json"; "2"; "1"]%string H).
Defined.

(** ** The distribution summary *)

Lemma fitting_split l :
  exists rest,
    l = fitting l ++ rest /\
    Forall (fun bw => fits_float bw.2 = true) (fitting l) /\
    match rest with
    | [] => all_fit l = true
    | bw :: _ => fits_float bw.2 = false /\ all_fit l = false
    end.
Proof.
  induction l as [|bw l (rest & Hl & Hfit & Hrest)]; [by exists []|].
  cbn [fitting all_fit forallb]. destruct (fits_float bw.2) eqn:Hbw.
  - exists rest. split; [by rewrite <- app_comm_cons, <- Hl|]. split; [by constructor|].
    exact Hrest.
  - by exists (bw :: l).
Qed.

(** X15. The summary touches the error stream only.  It writes one line
    per chunk, in order and numbered from the starting index, each carrying
    that chunk's accumulated weight and number of files, and stops at the
    first chunk whose weight does not convert to a float: it returns when
    every weight converts, having written a line for each chunk, and raises
    OverflowError otherwise, having written the lines of the chunks before
    that one.  A surplus of bins or of weights is ignored. *)
Theorem report_one_line_per_chunk
    (i : nat) (bins : list (list item)) (bin_weights : list Z) (s : io) :
  exists lines,
    (forall k b wt,
       (k < length lines)%nat ->
       bins !! k = Some b -> bin_weights !! k = Some wt ->
       fits_float wt = true /\ lines !! k = Some (DChunk (i + k) wt (length b))) /\
    ((length lines = Nat.min (length bins) (length bin_weights) /\
      report i bins bin_weights s =
        (inr tt, IO (stdout s) (stderr s ++ lines) (calls s))) \/
     (exists b wt,
        bins !! length lines = Some b /\ bin_weights !! length lines = Some wt /\
        fits_float wt = false /\
        report i bins bin_weights s =
          (inl (Raise OverflowError), IO (stdout s) (stderr s ++ lines) (calls s)))).
Proof.
  destruct (fitting_split (zip bins bin_weights)) as (rest & Hzip & Hfit & Hrest).
  exists (imap (fun k bw => DChunk (i + k) bw.2 (length bw.1))
               (fitting (zip bins bin_weights))).
  rewrite length_imap. split.
  - intros k b wt Hk Hb Hwt.
    assert (Hz : fitting (zip bins bin_weights) !! k = Some (b, wt)).
    { assert (zip bins bin_weights !! k = Some (b, wt)) as Hz.
      { rewrite lookup_zip_with, Hb. simpl. by rewrite Hwt. }
      rewrite Hzip in Hz. by rewrite lookup_app_l in Hz. }
    split.
    + exact (proj1 (Forall_lookup _ _) Hfit k (b, wt) Hz).
    + by rewrite list_lookup_imap, Hz.
  - rewrite report_lines. destruct rest as [|[b wt] rest].
    + left. rewrite Hrest. split; [|done].
      rewrite (fitting_all _ Hrest). apply length_zip.
    + right. destruct Hrest as [Hbw Hall]. rewrite Hall.
      assert (Hz : (fitting (zip bins bin_weights) ++ (b, wt) :: rest)
                     !! length (fitting (zip bins bin_weights)) = Some (b, wt))
        by (by apply list_lookup_middle).
      rewrite <- Hzip in Hz.
      apply lookup_zip_with_Some in Hz as (b' & wt' & [= <- <-] & Hb & Hwt).
      by exists b, wt.
Qed.

(** ** Where the heaviest item and weightless items go *)

Lemma first_lightest_zeros n :
  first_lightest (replicate (S n) 0) 0.
Proof.
  exists 0. split; [done|]. split; [|lia].
  intros j wj [-> _]%lookup_replicate. lia.
Qed.

(** X16. With at least one bin and at least one item, the first bin begins
    with the heaviest item, the earliest one in the input among equally
    heavy ones. *)
Theorem bin_packing_ffd_heaviest_in_first_bin (items : list item) (num_bins : Z) :
  1 <= num_bins -> items <> [] ->
  exists bins bin_weights top others,
    bin_packing_ffd items num_bins = inr (bins, bin_weights) /\
    bins !! 0%nat = Some (top :: others) /\
    top ∈ items /\
    (forall x, x ∈ items -> x.2 <= top.2) /\
    head (filter (same_weight top.2) items) = Some top.
Proof.
  intros Hn Hne.
  destruct (bin_packing_ffd_steps items num_bins Hn) as ([bins ws] & Hr & Hs).
  destruct (sorted_items_stable_descending items) as (Hperm & Hsorted & Hstable).
  destruct (sorted heavier_first items) as [|top rest] eqn:Es.
  { by apply sorted_nil_inv in Es. }
  destruct (Z.to_nat num_bins) as [|n] eqn:En; [lia|].
  inversion Hs as [|it rest' bs bws i b wi st' Hfl Hb Hwi Hsteps]; subst.
  assert (i = 0)%nat as -> by (eapply first_lightest_unique; [exact Hfl|apply first_lightest_zeros]).
  simpl in Hb, Hwi. simplify_eq.
  destruct (ffd_steps_grow _ _ _ _ _ 0%nat [top] Hsteps) as (t & Ht & _); [done|].
  exists bins, ws, top, t. split; [done|]. split; [done|].
  assert (Hin : top ∈ items) by (rewrite <- Hperm; apply elem_of_cons; by left).
  split; [done|]. split.
  - intros x Hx. rewrite <- Hperm in Hx.
    apply StronglySorted_inv in Hsorted as [_ Htop].
    apply elem_of_cons in Hx as [->|Hx]; [lia|].
    exact (proj1 (Forall_forall _ _) Htop x Hx).
  - rewrite <- Hstable. by rewrite filter_cons_True.
Qed.

Lemma bin_packing_ffd_heaviest_in_first_bin_witness :
  1 <= 2 /\ [("x", 3); ("y", 7); ("z", 7)]%string <> [] /\
  exists bins bin_weights top others,
    bin_packing_ffd [("x", 3); ("y", 7); ("z", 7)]%string 2 = inr (bins, bin_weights) /\
    bins !! 0%nat = Some (top :: others) /\
    top ∈ [("x", 3); ("y", 7); ("z", 7)]%string /\
    (forall x, x ∈ [("x", 3); ("y", 7); ("z", 7)]%string -> x.2 <= top.2) /\
    head (filter (same_weight top.2) [("x", 3); ("y", 7); ("z", 7)]%string) = Some top.
Proof.
  assert (H1 : 1 <= 2) by lia.
  assert (H2 : [("x", 3); ("y", 7); ("z", 7)]%string <> []) by discriminate.
  repeat (split; [assumption|]).
  exact (bin_packing_ffd_heaviest_in_first_bin _ 2 H1 H2).
Defined.

Lemma sorted_all_equal (items : list item) k :
  (forall x, x ∈ items -> x.2 = k) -> sorted heavier_first items = items.
Proof.
  induction items as [|x items IH]; intros Hk; [done|].
  simpl. rewrite IH by (intros y Hy; apply Hk, elem_of_cons; by right).
  destruct items as [|y items]; [done|]. simpl.
  assert (heavier_first x y = true) as ->; [|done].
  apply heavier_first_iff. unfold not_lighter.
  rewrite (Hk x), (Hk y); [lia| |]; rewrite !elem_of_cons; auto.
Qed.

Lemma pack_weightless s b n :
  (forall x, x ∈ s -> x.2 = 0) ->
  pack s (b :: replicate n [], 0 :: replicate n 0) =
    inr ((b ++ s) :: replicate n [], 0 :: replicate n 0).
Proof.
  revert b. induction s as [|[name wt] s IH]; intros b Hz.
  - simpl. by rewrite (right_id_L [] (++)).
  - assert (wt = 0) as -> by (apply (Hz (name, wt)), elem_of_cons; by left).
    cbn [pack]. unfold place.
    assert (py_min (0 :: replicate n 0) = Some 0) as ->.
    { apply (py_min_zero [] (replicate n 0)).
      - by intros y ?%elem_of_nil.
      - by intros y [-> _]%elem_of_replicate. }
    cbn [py_index Z.eqb lookup list_lookup insert list_insert Z.add].
    rewrite IH, <- (assoc_L (++)); [done|].
    intros x Hx. apply Hz, elem_of_cons. by right.
Qed.

(** X17. Weightless items do not spread: when every item weighs zero, all of
    them land in the first bin, in their input order, and every other bin
    stays empty. *)
Theorem bin_packing_ffd_all_weightless (items : list item) (num_bins : Z) :
  1 <= num_bins ->
  (forall x, x ∈ items -> x.2 = 0) ->
  bin_packing_ffd items num_bins =
    inr (items :: replicate (Z.to_nat num_bins - 1) [],
         replicate (Z.to_nat num_bins) 0).
Proof.
  intros Hn Hz. unfold bin_packing_ffd.
  rewrite (sorted_all_equal items 0 Hz).
  destruct (Z.to_nat num_bins) as [|n] eqn:En; [lia|].
  replace (S n - 1)%nat with n by lia. cbn [replicate].
  by rewrite pack_weightless.
Qed.

Lemma bin_packing_ffd_all_weightless_witness :
  1 <= 3 /\
  (forall x, x ∈ [("x", 0); ("y", 0)]%string -> x.2 = 0) /\
  bin_packing_ffd [("x", 0); ("y", 0)]%string 3 =
    inr ([("x", 0); ("y", 0)]%string :: replicate (Z.to_nat 3 - 1) [],
         replicate (Z.to_nat 3) 0).
Proof.
  assert (H1 : 1 <= 3) by lia.
  assert (H2 : forall x, x ∈ [("x", 0); ("y", 0)]%string -> x.2 = 0).
  { intros x Hx. repeat (apply elem_of_cons in Hx as [->|Hx]; [done|]).
    by apply elem_of_nil in Hx. }
  repeat (split; [assumption|]).
  exact (bin_packing_ffd_all_weightless _ 3 H1 H2).
Defined.

(** * convert_tests.py: the generated function name *)

Lemma lowered_is_name_char c :
  is_name_char (if is_word_char (lower_char c) then lower_char c else "_"%char) = true.
Proof. destruct c as [[] [] [] [] [] [] [] []]; reflexivity. Qed.

Lemma name_char_kept c :
  is_name_char c = true ->
  lower_char c = c /\ is_word_char c = true.
Proof. destruct c as [[] [] [] [] [] [] [] []]; (discriminate || done). Qed.

Lemma squeeze_sublist s : squeeze s `sublist_of` s.
Proof.
  induction s as [|c s IH]; [constructor|]. simpl.
  destruct (Ascii.eqb c "_"); [|by constructor].
  destruct s as [|c' s]; [done|].
  destruct (Ascii.eqb c' "_"); [by apply sublist_cons|by constructor].
Qed.

Lemma squeeze_head s : head (squeeze s) = head s.
Proof.
  induction s as [|c s IH]; [done|]. simpl.
  destruct (Ascii.eqb_spec c "_") as [->|_]; [|done].
  destruct s as [|c' s]; [done|].
  destruct (Ascii.eqb_spec c' "_") as [->|_]; [|done].
  by rewrite IH.
Qed.

Lemma doubled_cons c c' s :
  doubled (c :: c' :: s) =
    Ascii.eqb c "_" && Ascii.eqb c' "_" || doubled (c' :: s).
Proof. reflexivity. Qed.

Lemma squeeze_not_doubled s : doubled (squeeze s) = false.
Proof.
  induction s as [|c s IH]; [done|]. simpl.
  destruct (Ascii.eqb_spec c "_") as [->|Hc].
  - destruct s as [|c' s]; [done|].
    destruct (Ascii.eqb_spec c' "_") as [->|Hc']; [done|].
    pose proof (squeeze_head (c' :: s)) as Hh.
    destruct (squeeze (c' :: s)) as [|d t] eqn:E; [done|].
    simpl in Hh. injection Hh as ->.
    rewrite doubled_cons, IH. by destruct (Ascii.eqb_spec c' "_").
  - destruct (squeeze s) as [|d t] eqn:E; [done|].
    rewrite doubled_cons, IH. by destruct (Ascii.eqb_spec c "_").
Qed.

(** What stripping on the left removes is a run of the character. *)
Lemma lstrip_char_spec x s :
  exists n, s = replicate n x ++ lstrip_char x s /\
            head (lstrip_char x s) <> Some x.
Proof.
  induction s as [|c s (n & Hs & Hh)]; simpl.
  - by exists 0%nat.
  - destruct (Ascii.eqb_spec c x) as [->|Hc].
    + exists (S n). simpl. by rewrite <- Hs.
    + exists 0%nat. split; [done|]. simpl. congruence.
Qed.

Lemma last_rev_head {A} (l : list A) : last (rev l) = head l.
Proof. destruct l as [|x l]; [done|]. simpl. apply last_snoc. Qed.

Lemma strip_char_spec x s :
  exists n k, s = replicate n x ++ strip_char x s ++ replicate k x /\
              head (strip_char x s) <> Some x /\
              last (strip_char x s) <> Some x.
Proof.
  unfold strip_char.
  destruct (lstrip_char_spec x s) as (n & Hs & Hh).
  destruct (lstrip_char_spec x (rev (lstrip_char x s))) as (k & Hr & Hl).
  set (t := lstrip_char x s) in *. set (u := lstrip_char x (rev t)) in *.
  assert (Ht : t = rev u ++ replicate k x).
  { rewrite <- (rev_involutive t), Hr, rev_app_distr. f_equal.
    clear. induction k as [|k IH]; [done|]. simpl. rewrite IH.
    clear. induction k as [|k IH]; [done|]. simpl. by rewrite <- IH. }
  exists n, k. split; [by rewrite <- Ht|]. split.
  - rewrite Ht in Hh. rewrite head_app in Hh. by destruct (head (rev u)).
  - rewrite last_rev_head. exact Hl.
Qed.

Lemma doubled_app_false s1 s2 : doubled (s1 ++ s2) = false -> doubled s2 = false.
Proof.
  induction s1 as [|c s1 IH]; [done|]. intros H. apply IH.
  simpl in H. destruct (s1 ++ s2); [done|].
  by apply orb_false_iff in H as [_ H].
Qed.

Lemma doubled_app_false_l s1 s2 : doubled (s1 ++ s2) = false -> doubled s1 = false.
Proof.
  induction s1 as [|c s1 IH]; [done|]. simpl.
  destruct s1 as [|c' s1]; [done|]. simpl.
  intros [H1 H2]%orb_false_iff. rewrite H1. simpl. by apply IH.
Qed.

Lemma func_name_body_props (t : list ascii) :
  Forall (fun c => is_name_char c = true) (func_name_body t) /\
  head (func_name_body t) <> Some "_"%char /\
  last (func_name_body t) <> Some "_"%char /\
  doubled (func_name_body t) = false.
Proof.
  unfold func_name_body.
  set (q := squeeze (sanitize (lower_char <$> t))).
  destruct (strip_char_spec "_" q) as (n & k & Hq & Hh & Hl).
  assert (Hsub : strip_char "_" q `sublist_of` q).
  { rewrite Hq at 2. apply sublist_inserts_l, sublist_inserts_r. done. }
  split; [|split; [done|split; [done|]]].
  - apply Forall_forall. intros c Hc.
    assert (Hin : c ∈ sanitize (lower_char <$> t)).
    { eapply elem_of_sublist; [|apply squeeze_sublist].
      by eapply elem_of_sublist. }
    unfold sanitize in Hin.
    apply list_elem_of_fmap in Hin as (c1 & -> & Hc1).
    apply list_elem_of_fmap in Hc1 as (c0 & -> & _).
    apply lowered_is_name_char.
  - pose proof (squeeze_not_doubled (sanitize (lower_char <$> t))) as Hd.
    fold q in Hd. rewrite Hq in Hd.
    apply doubled_app_false in Hd. by apply doubled_app_false_l in Hd.
Qed.

(** X18. Whatever the test name, the generated function name is [test_]
    followed by a body made of lower-case letters, digits and underscores
    only, which neither begins nor ends with an underscore and has no two
    underscores side by side. *)
Theorem func_name_well_formed (test_name : string) :
  exists body,
    func_name test_name = "test_" +:+ string_of_list_ascii body /\
    Forall (fun c => is_name_char c = true) body /\
    head body <> Some "_"%char /\
    last body <> Some "_"%char /\
    doubled body = false.
Proof.
  exists (func_name_body (list_ascii_of_string test_name)).
  split; [done|]. apply func_name_body_props.
Qed.

Lemma squeeze_fixed s : doubled s = false -> squeeze s = s.
Proof.
  induction s as [|c s IH]; [done|]. intros Hd. simpl.
  destruct s as [|c' s].
  - by destruct (Ascii.eqb c "_").
  - rewrite doubled_cons in Hd. apply orb_false_iff in Hd as [Hcc Hd].
    rewrite (IH Hd).
    destruct (Ascii.eqb c "_"); [|done]. simpl in Hcc. by rewrite Hcc.
Qed.

Lemma lstrip_char_fixed x s : head s <> Some x -> lstrip_char x s = s.
Proof.
  destruct s as [|c s]; [done|]. simpl. intros Hh.
  destruct (Ascii.eqb_spec c x) as [->|_]; [by destruct Hh|done].
Qed.

Lemma strip_char_fixed x s :
  head s <> Some x -> last s <> Some x -> strip_char x s = s.
Proof.
  intros Hh Hl. unfold strip_char.
  rewrite (lstrip_char_fixed x s Hh), lstrip_char_fixed, rev_involutive; [done|].
  by rewrite <- last_rev_head, rev_involutive.
Qed.

(** X19. The bodies described above are exactly the names the derivation
    leaves alone: a body of lower-case letters, digits and underscores with
    no underscore at either end and no two side by side is returned
    unchanged, and deriving a name from a derived body changes nothing. *)
Theorem func_name_body_stable (body : list ascii) :
  Forall (fun c => is_name_char c = true) body ->
  head body <> Some "_"%char -> last body <> Some "_"%char ->
  doubled body = false ->
  func_name_body body = body /\
  forall test_name,
    func_name_body (func_name_body test_name) = func_name_body test_name.
Proof.
  assert (Hfix : forall b,
    Forall (fun c => is_name_char c = true) b ->
    head b <> Some "_"%char -> last b <> Some "_"%char -> doubled b = false ->
    func_name_body b = b).
  { intros b Hchars Hh Hl Hd. unfold func_name_body.
    assert (lower_char <$> b = b) as ->.
    { rewrite <- (list_fmap_id b) at 2. apply Forall_fmap_ext_1.
      eapply Forall_impl; [exact Hchars|]. intros c Hc.
      by destruct (name_char_kept c Hc). }
    assert (sanitize b = b) as ->.
    { unfold sanitize. rewrite <- (list_fmap_id b) at 2. apply Forall_fmap_ext_1.
      eapply Forall_impl; [exact Hchars|]. intros c Hc.
      destruct (name_char_kept c Hc) as [_ ->]. done. }
    rewrite (squeeze_fixed b Hd). by apply strip_char_fixed. }
  intros Hchars Hh Hl Hd. split; [by apply Hfix|].
  intros t. destruct (func_name_body_props t) as (H1 & H2 & H3 & H4).
  by apply Hfix.
Qed.

Lemma func_name_body_stable_witness :
  func_name "Runs the  pre-commit Hook!" = "test_runs_the_pre_commit_hook"%string /\
  func_name_body (list_ascii_of_string "runs_the_pre_commit_hook") =
    list_ascii_of_string "runs_the_pre_commit_hook".
Proof.
  split; [reflexivity|].
  apply (func_name_body_stable (list_ascii_of_string "runs_the_pre_commit_hook")).
  - repeat constructor.
  - discriminate.
  - discriminate.
  - reflexivity.
Defined.

(** * Instances of the statements above *)

Lemma calculate_static_weight_bounds_witness :
  calculate_static_weight fifty_world "spec/x_spec.sh" start = (inr 70, start) /\
  exists warnings,
    start = IO (stdout start) (stderr start ++ warnings) (calls start) /\
    Z.of_nat (length fifty_lines) <= 70 <= 11 * Z.of_nat (length fifty_lines) /\
    warnings = [].
Proof.
  assert (H : calculate_static_weight fifty_world "spec/x_spec.sh" start
              = (inr 70, start)) by reflexivity.
  split; [exact H|].
  destruct (calculate_static_weight_bounds fifty_world "spec/x_spec.sh" start start 70 H)
    as (warnings & Hs & _ & _ & Hread & _).
  exists warnings. split; [exact Hs|].
  exact (Hread fifty_lines eq_refl).
Defined.

Lemma report_one_line_per_chunk_witness :
  exists lines,
    report 0 [[("x", 3)]; []]%string [3; 0] start =
      (inr tt, IO (stdout start) (stderr start ++ lines) (calls start)) /\
    lines = [DChunk 0 3 1; DChunk 1 0 0].
Proof.
  destruct (report_one_line_per_chunk 0 [[("x", 3)]; []]%string [3; 0] start)
    as (lines & Hline & [[Hlen Hrun]|(b & wt & _ & _ & _ & Hrun)]);
    [|discriminate Hrun].
  exists lines. split; [exact Hrun|].
  destruct lines as [|l0 [|l1 [|l2 lines]]]; try discriminate Hlen.
  destruct (Hline 0%nat [("x", 3)]%string 3 (le_n_S _ _ (Nat.le_0_l _)) eq_refl eq_refl)
    as [_ [= ->]].
  destruct (Hline 1%nat [] 0 (le_n _) eq_refl eq_refl) as [_ [= ->]].
  reflexivity.
Defined.
